(** * rollup-plugin-rename-extensions: the specifier-rewrite pass

    A shallow embedding of [src/index.ts].  The file holds two
    realizations of one plugin: the first parses with Babel
    ([@babel/parser], [@babel/traverse]), the second with the parser rollup
    hands to its plugins (acorn, walked by [acorn-walk]).  They share
    [isEmpty], [rewrite] and the body of [generateBundle]; they differ in
    the specifier extractors and in [extract].

    Modelling choices:
    - a JavaScript string is a [string], an offset a [Z], a value that may
      be [undefined] or [null] an [option];
    - the mapping object [Record<string, string>] is a [gmap string string],
      [hasOwnProperty] being definedness of the lookup;
    - [string | false] and [Node | false] results are [option]s, and the
      truthiness tests of the source ([a || b], [if (x)], [!x]) are written
      out, the empty string and [0] being falsy;
    - an exception is a result of its own, [Threw];
    - file objects live in a store and the bundle object holds references to
      them under its property names, in enumeration order, so that the
      in-place updates of a file and the [delete]/assignment on the
      collection are two distinct effects;
    - the collaborators the plugin is given or imports (the include/exclude
      filter, the parser and its walker, the patcher's check of the span it
      is handed and its rendering) are parameters of the pass;
      [path.extname] is transcribed. *)

From Stdlib Require Import ZArith Ascii String List Bool Lia.
From stdpp Require Import base option list gmap strings.

Local Open Scope string_scope.
Local Open Scope Z_scope.

(** ** JavaScript string primitives *)

(** [String.prototype.slice(start, end)]: a negative bound counts from the
    end of the string, both bounds are clamped to [0, length], and an empty
    range gives the empty string.  ([-0] is [0] for this purpose.) *)
Definition slice (s : string) (start end_ : Z) : string :=
  let len := Z.of_nat (String.length s) in
  let from := if start <? 0 then Z.max (len + start) 0 else Z.min start len in
  let to := if end_ <? 0 then Z.max (len + end_) 0 else Z.min end_ len in
  substring (Z.to_nat from) (Z.to_nat (Z.max (to - from) 0)) s.

(** [a || b] where [a] is [string | false]: [false] and the empty string are
    falsy and give [b]. *)
Definition js_or (a : option string) (b : string) : string :=
  match a with
  | Some EmptyString => b
  | Some s => s
  | None => b
  end.

(** Truthiness of a [string | false] value, as tested by [if (newPath)]. *)
Definition truthy (a : option string) : bool :=
  match a with
  | Some EmptyString => false
  | Some _ => true
  | None => false
  end.

(** ** [path.extname] (Node's [path] module, POSIX flavour)

    The plugin imports [extname] from [path].  It is transcribed here from
    Node's [lib/path.js]: the path is scanned from its last character
    towards the first; trailing separators are skipped, the scan stops at
    the separator that starts the last component, and the extension runs
    from the last dot of that component to its end. *)
Module Path.

Record scan := {
  startDot : Z;
  startPart : Z;
  end_ : Z;
  matchedSlash : bool;
  preDotState : Z
}.

Definition init : scan :=
  {| startDot := -1; startPart := 0; end_ := -1;
     matchedSlash := true; preDotState := 0 |}.

Definition CHAR_FORWARD_SLASH : ascii := "/"%char.
Definition CHAR_DOT : ascii := "."%char.

(** One iteration of the loop body at index [i]; the boolean is [true]
    when the body executes [break]. *)
Definition step (i : Z) (code : ascii) (st : scan) : scan * bool :=
  if Ascii.eqb code CHAR_FORWARD_SLASH then
    if negb (matchedSlash st) then
      ({| startDot := startDot st; startPart := i + 1; end_ := end_ st;
          matchedSlash := matchedSlash st;
          preDotState := preDotState st |}, true)
    else (st, false)
  else
    let st1 :=
      if end_ st =? -1 then
        {| startDot := startDot st; startPart := startPart st;
           end_ := i + 1; matchedSlash := false;
           preDotState := preDotState st |}
      else st in
    if Ascii.eqb code CHAR_DOT then
      if startDot st1 =? -1 then
        ({| startDot := i; startPart := startPart st1; end_ := end_ st1;
            matchedSlash := matchedSlash st1;
            preDotState := preDotState st1 |}, false)
      else if negb (preDotState st1 =? 1) then
        ({| startDot := startDot st1; startPart := startPart st1;
            end_ := end_ st1; matchedSlash := matchedSlash st1;
            preDotState := 1 |}, false)
      else (st1, false)
    else if negb (startDot st1 =? -1) then
      ({| startDot := startDot st1; startPart := startPart st1;
          end_ := end_ st1; matchedSlash := matchedSlash st1;
          preDotState := -1 |}, false)
    else (st1, false).

(** [for (let i = path.length - 1; i >= 0; --i)]: [rev_codes] are the
    characters still to visit, last one first, and [i] is the index of
    the head. *)
Fixpoint loop (rev_codes : list ascii) (i : Z) (st : scan) : scan :=
  match rev_codes with
  | [] => st
  | code :: rest =>
      let '(st', brk) := step i code st in
      if brk then st' else loop rest (i - 1) st'
  end.

Definition extname (path : string) : string :=
  let st := loop (rev (list_ascii_of_string path))
                 (Z.of_nat (String.length path) - 1) init in
  if (startDot st =? -1)
     || (end_ st =? -1)
     || (preDotState st =? 0)
     || ((preDotState st =? 1)
         && (startDot st =? end_ st - 1)
         && (startDot st =? startPart st + 1))
  then ""
  else slice path (startDot st) (end_ st).

(** The final state of the scan of [path]. *)
Definition scan_of (path : string) : scan :=
  loop (rev (list_ascii_of_string path))
            (Z.of_nat (String.length path) - 1) init.

(** The path ends in a separator. *)
Definition trailingSeparator (path : string) : bool :=
  match rev (list_ascii_of_string path) with
  | code :: _ => Ascii.eqb code "/"
  | [] => false
  end.

End Path.

(** What the scan knows when the characters at the indices above [i] have
    been visited, in a path of length [n]. *)
Definition scanned (n i : Z) (st : Path.scan) : Prop :=
  (Path.end_ st = -1 \/ (i + 1 < Path.end_ st /\ Path.end_ st <= n))
  /\ (Path.startDot st = -1
      \/ (i < Path.startDot st /\ Path.startDot st < Path.end_ st))
  /\ (Path.startDot st = -1 -> Path.preDotState st = 0)
  /\ (Path.preDotState st <> 0 -> 1 <= Path.startDot st).

(** ** The Extension Rewrite Rule *)

(** [rewrite(input, extensions)], identical in both realizations.  [None]
    is the [false] the source returns when the extension is not an own
    property of [extensions]. *)
Definition rewrite (input : string) (extensions : gmap string string)
  : option string :=
  let extension := Path.extname input in
  match extensions !! extension with
  | Some mapped =>
      Some (slice input 0 (- Z.of_nat (String.length extension)) +:+ mapped)
  | None => None
  end.

(** ** Syntax nodes

    The nodes the four visitors and the extractors look at.  A node carries
    its source span; [None] stands for an absent ([undefined] or [null])
    position.  The two parsers name the kinds differently (see [type] in
    each realization), the shapes are the same. *)
#[warnings="-register-all"]
Inductive Node : Type :=
| StringLiteral (start end_ : option Z) (value : string)
| NumericLiteral (start end_ : option Z) (value : Z)
| TemplateLiteral (start end_ : option Z)
| Identifier (start end_ : option Z) (name : string)
| Import (start end_ : option Z)
| MemberExpression (start end_ : option Z) (object property : Node)
| CallExpression (start end_ : option Z) (callee : Node) (arguments : list Node)
| ImportDeclaration (start end_ : option Z) (source : Node)
| ExportNamedDeclaration (start end_ : option Z) (source : option Node)
| ExportAllDeclaration (start end_ : option Z) (source : Node).

(** Property reads; [None] is [undefined]. *)
Definition start (n : Node) : option Z :=
  match n with
  | StringLiteral s _ _ | NumericLiteral s _ _ | TemplateLiteral s _
  | Identifier s _ _ | Import s _ | MemberExpression s _ _ _
  | CallExpression s _ _ _ | ImportDeclaration s _ _
  | ExportNamedDeclaration s _ _ | ExportAllDeclaration s _ _ => s
  end.

Definition end_ (n : Node) : option Z :=
  match n with
  | StringLiteral _ e _ | NumericLiteral _ e _ | TemplateLiteral _ e
  | Identifier _ e _ | Import _ e | MemberExpression _ e _ _
  | CallExpression _ e _ _ | ImportDeclaration _ e _
  | ExportNamedDeclaration _ e _ | ExportAllDeclaration _ e _ => e
  end.

(** [node.value] when it is a string; [None] when the node has no [value]
    or a [value] that is not a string. *)
Definition value (n : Node) : option string :=
  match n with
  | StringLiteral _ _ v => Some v
  | _ => None
  end.

Definition name (n : Node) : option string :=
  match n with
  | Identifier _ _ x => Some x
  | _ => None
  end.

Definition callee (n : Node) : option Node :=
  match n with
  | CallExpression _ _ c _ => Some c
  | _ => None
  end.

Definition arguments (n : Node) : option (list Node) :=
  match n with
  | CallExpression _ _ _ args => Some args
  | _ => None
  end.

Definition source (n : Node) : option Node :=
  match n with
  | ImportDeclaration _ _ s | ExportAllDeclaration _ _ s => Some s
  | ExportNamedDeclaration _ _ s => s
  | _ => None
  end.

(** [isEmpty(array)]: [!array || array.length === 0]. *)
Definition isEmpty {A : Type} (array : option (list A)) : bool :=
  match array with
  | None => true
  | Some a => (List.length a =? 0)%nat
  end.

(** ** The Text Patcher ([MagicString])

    The patcher belongs to the [magic-string] package.  The model keeps the
    original text and the [overwrite] calls the patcher has accepted, each
    with the arguments as they were passed. *)
Record RewriteEdit := {
  edit_start : option Z;
  edit_end : option Z;
  replacementText : string
}.

Record MagicString := {
  original : string;
  edits : list RewriteEdit
}.

Definition MagicString_new (code : string) : MagicString :=
  {| original := code; edits := [] |}.

(** The log with one more accepted call. *)
Definition appendEdit (start end_ : option Z) (content : string)
    (magicString : MagicString) : MagicString :=
  {| original := original magicString;
     edits := edits magicString ++
              [ {| edit_start := start; edit_end := end_;
                   replacementText := content |} ] |}.

(** ** Exceptions *)
Inductive Error : Type :=
| PatcherError   (** the [Error] [magic-string] throws on a span it
                     rejects *)
| PositionError  (** the [Error] thrown by the position guard of [extract] *)
| TypeError      (** a value that is not a string reaches [extname], or a
                     property of [undefined] is read *)
| SyntaxError.   (** the parser rejects the code *)

Inductive Result (A : Type) : Type :=
| Done (a : A)
| Threw (e : Error).
Arguments Done {A} a.
Arguments Threw {A} e.

(** What [magic-string] decides on the span it is handed, given the state
    of the patcher: [overwrite] throws on a span it rejects (both offsets
    absent, an empty span, an end beyond the text, a span cut by an earlier
    edit, ...).  The decision is the package's; it is a parameter of the
    model, and nothing is assumed of it. *)
Definition SpanCheck : Type := option Z -> option Z -> MagicString -> bool.

(** [magicString.overwrite(start, end, content)]: the exception of the
    patcher, or the patcher with the call recorded. *)
Definition overwrite (accepts : SpanCheck) (start end_ : option Z)
    (content : string) (magicString : MagicString) : Result MagicString :=
  if accepts start end_ magicString
  then Done (appendEdit start end_ content magicString)
  else Threw PatcherError.

(** [!x] for a position: [undefined], [null] and [0] are falsy. *)
Definition falsy (x : option Z) : bool :=
  match x with
  | Some z => z =? 0
  | None => true
  end.

(** The double quote character. *)
Definition dquote : ascii := "034"%char.

(** The template literal that quotes the new path. *)
Definition quoted (newPath : string) : string := "'" +:+ newPath +:+ "'".

(** The walkers call the visitor on each visited node in turn; an
    exception leaves the walk. *)
Fixpoint traverse (extract : Node -> MagicString -> Result MagicString)
    (nodes : list Node) (magicString : MagicString) : Result MagicString :=
  match nodes with
  | [] => Done magicString
  | node :: rest =>
      match extract node magicString with
      | Done magicString' => traverse extract rest magicString'
      | Threw e => Threw e
      end
  end.

(** ** Emitted files and the output collection *)

(** A source map is either the one the host attached to the file or the
    one [magicString.generateMap()] builds from the patcher. *)
Inductive SourceMap : Type :=
| HostMap (content : string)
| generateMap (magicString : MagicString).

Record File := {
  facadeModuleId : option string;
  fileName : string;
  imports : list string;
  code : option string;
  map : option SourceMap
}.

Definition set_facadeModuleId (v : option string) (file : File) : File :=
  {| facadeModuleId := v; fileName := fileName file;
     imports := imports file; code := code file; map := map file |}.

Definition set_fileName (v : string) (file : File) : File :=
  {| facadeModuleId := facadeModuleId file; fileName := v;
     imports := imports file; code := code file; map := map file |}.

Definition set_code (v : option string) (file : File) : File :=
  {| facadeModuleId := facadeModuleId file; fileName := fileName file;
     imports := imports file; code := v; map := map file |}.

Definition set_map (v : option SourceMap) (file : File) : File :=
  {| facadeModuleId := facadeModuleId file; fileName := fileName file;
     imports := imports file; code := code file; map := v |}.

(** The bundle object: own properties in enumeration order, each holding a
    reference to a file object of the store. *)
Definition Bundle : Type := list (string * nat).

(** [bundle[key]] *)
Fixpoint bundle_get (bundle : Bundle) (key : string) : option nat :=
  match bundle with
  | [] => None
  | (k, ref) :: rest => if String.eqb k key then Some ref else bundle_get rest key
  end.

(** [delete bundle[key]] *)
Fixpoint bundle_delete (key : string) (bundle : Bundle) : Bundle :=
  match bundle with
  | [] => []
  | (k, ref) :: rest =>
      if String.eqb k key then bundle_delete key rest
      else (k, ref) :: bundle_delete key rest
  end.

(** A property name that is an array index: the decimal writing, without
    sign or leading zero, of an integer below [2^32 - 1].  JavaScript
    enumerates such names first, in ascending order, and the other names
    after them in the order of their creation. *)
Definition digit (c : ascii) : option N :=
  let n := N_of_ascii c in
  if (48 <=? n)%N && (n <=? 57)%N then Some (n - 48)%N else None.

Fixpoint digits (s : string) (acc : N) : option N :=
  match s with
  | EmptyString => Some acc
  | String c rest =>
      match digit c with
      | Some d => digits rest (10 * acc + d)%N
      | None => None
      end
  end.

Definition arrayIndex (key : string) : option N :=
  match key with
  | EmptyString => None
  | String c rest =>
      if Ascii.eqb c "0" && negb (String.eqb rest "") then None
      else match digits key 0 with
           | Some n => if (n <? 4294967295)%N then Some n else None
           | None => None
           end
  end.

(** The array index [n] is enumerated before the name [k]. *)
Definition indexBefore (n : N) (k : string) : bool :=
  match arrayIndex k with
  | Some m => (n <? m)%N
  | None => true
  end.

(** A new property whose name is the array index [n] takes its place among
    the array indices. *)
Fixpoint bundle_insert_index (n : N) (key : string) (ref : nat)
    (bundle : Bundle) : Bundle :=
  match bundle with
  | [] => [(key, ref)]
  | (k, r) :: rest =>
      if indexBefore n k then (key, ref) :: (k, r) :: rest
      else (k, r) :: bundle_insert_index n key ref rest
  end.

(** The value of an existing property is replaced where the property is. *)
Fixpoint bundle_replace (key : string) (ref : nat) (bundle : Bundle)
  : Bundle :=
  match bundle with
  | [] => []
  | (k, r) :: rest =>
      if String.eqb k key then (k, ref) :: rest
      else (k, r) :: bundle_replace key ref rest
  end.

(** [bundle[key] = file]: an existing property keeps its place; a new one
    goes among the array indices when its name is one, and last
    otherwise. *)
Definition bundle_set (key : string) (ref : nat) (bundle : Bundle) : Bundle :=
  match bundle_get bundle key with
  | Some _ => bundle_replace key ref bundle
  | None =>
      match arrayIndex key with
      | Some n => bundle_insert_index n key ref bundle
      | None => (bundle ++ [(key, ref)])%list
      end
  end.

(** The file objects and the collection the host hands to the pass. *)
Record State := {
  heap : list File;
  bundle : Bundle
}.

Record IRenameExtensionsOptions := {
  sourceMap : option bool;
  mappings : gmap string string
}.

(** ** The Bundle Output Renamer

    [generateBundle], shared by the two realizations up to the parser, the
    walker and [extract].  The collaborators are parameters: [filter] is
    the predicate [createFilter(options.include, options.exclude)] returns,
    [parse] the parser ([None] when it throws), [visited] the nodes the
    walker hands to the four visitors, in order, and [toString] the
    patcher's rendering of its text. *)
Section Pass.

Context {Ast : Type}.
Variable filter : option string -> bool.
Variable parse : string -> option Ast.
Variable visited : Ast -> list Node.
Variable toString : MagicString -> string.
Variable extract :
  gmap string string -> Node -> MagicString -> Result MagicString.
Variable options : IRenameExtensionsOptions.

Definition sourceMaps : bool :=
  negb (bool_decide (sourceMap options = Some false)).

(** The callback handed to [file.imports.map]. *)
Definition rewriteImport (imported : string) : string :=
  if negb (filter (Some imported)) then imported
  else js_or (rewrite imported (mappings options)) imported.

(** [if (file.code) { ... }]: the file after the block, and the exception
    that left it, if any. *)
Definition rewriteCode (file : File) : File * option Error :=
  match code file with
  | Some text =>
      if negb (String.eqb text "") then
        let magicString := MagicString_new text in
        match parse text with
        | None => (file, Some SyntaxError)
        | Some ast =>
            match traverse (extract (mappings options)) (visited ast)
                           magicString with
            | Threw e => (file, Some e)
            | Done magicString =>
                let file :=
                  if sourceMaps
                  then set_map (Some (generateMap magicString)) file
                  else file in
                (set_code (Some (toString magicString)) file, None)
            end
        end
      else (file, None)
  | None => (file, None)
  end.

(** The body of [for (const [key, file] of files)].  The file object is
    written back to the store when the body is left, normally or by an
    exception; the collection is touched by the last two statements
    only. *)
Definition processEntry (key : string) (ref : nat) (st : State)
  : State * option Error :=
  match heap st !! ref with
  | None => (st, Some TypeError)
  | Some file =>
      if negb (filter (facadeModuleId file)) then (st, None)
      else
        match facadeModuleId file with
        | None => (st, Some TypeError)
        | Some id =>
            let file :=
              set_facadeModuleId
                (Some (js_or (rewrite id (mappings options)) id)) file in
            let file :=
              set_fileName
                (js_or (rewrite (fileName file) (mappings options))
                       (fileName file)) file in
            let _ := List.map rewriteImport (imports file) in
            match rewriteCode file with
            | (file, Some e) =>
                ({| heap := <[ref := file]> (heap st);
                    bundle := bundle st |}, Some e)
            | (file, None) =>
                ({| heap := <[ref := file]> (heap st);
                    bundle :=
                      bundle_set (js_or (rewrite key (mappings options)) key)
                                 ref (bundle_delete key (bundle st)) |},
                 None)
            end
        end
  end.

(** The file after the two metadata assignments at the head of the
    body, [id] being its facade module id. *)
Definition renamed (id : string) (file : File) : File :=
  set_fileName
    (js_or (rewrite (fileName file) (mappings options)) (fileName file))
    (set_facadeModuleId
       (Some (js_or (rewrite id (mappings options)) id)) file).

Fixpoint forEntries (files : Bundle) (st : State) : State * option Error :=
  match files with
  | [] => (st, None)
  | (key, ref) :: rest =>
      match processEntry key ref st with
      | (st', None) => forEntries rest st'
      | thrown => thrown
      end
  end.

(** [files] is [Object.entries(bundle)], taken before the loop. *)
Definition generateBundleWith (st : State) : State * option Error :=
  let files := bundle st in
  forEntries files st.

(** The file a finished iteration leaves, compared with the file it
    found. *)
Definition renamedFrom (file file' : File) : Prop :=
  imports file' = imports file
  /\ if filter (facadeModuleId file)
     then (exists id,
             facadeModuleId file = Some id
             /\ facadeModuleId file'
                = Some (js_or (rewrite id (mappings options)) id))
          /\ fileName file'
             = js_or (rewrite (fileName file) (mappings options))
                     (fileName file)
     else file' = file.

End Pass.

(** ** First realization: Babel *)
Module Babel.

Module NodeType.
Definition Literal := "StringLiteral".
Definition CallExpresssion := "CallExpression".
Definition Identifier := "Identifier".
Definition ImportDeclaration := "ImportDeclaration".
Definition ExportNamedDeclaration := "ExportNamedDeclaration".
Definition ExportAllDeclaration := "ExportAllDeclaration".
End NodeType.

(** [node.type] as Babel's parser sets it. *)
Definition type (n : Node) : string :=
  match n with
  | StringLiteral _ _ _ => "StringLiteral"
  | NumericLiteral _ _ _ => "NumericLiteral"
  | TemplateLiteral _ _ => "TemplateLiteral"
  | Identifier _ _ _ => "Identifier"
  | Import _ _ => "Import"
  | MemberExpression _ _ _ _ => "MemberExpression"
  | CallExpression _ _ _ _ => "CallExpression"
  | ImportDeclaration _ _ _ => "ImportDeclaration"
  | ExportNamedDeclaration _ _ _ => "ExportNamedDeclaration"
  | ExportAllDeclaration _ _ _ => "ExportAllDeclaration"
  end.

Definition isLiteral (node : option Node) : bool :=
  match node with
  | Some n => String.eqb (type n) NodeType.Literal
  | None => false
  end.

Definition getRequireSource (node : Node) : option Node :=
  if isEmpty (arguments node) then None
  else
    let args := default [] (arguments node) in
    let firstArg := head args in
    if negb (isLiteral firstArg) then None
    else
      let isRequire :=
        bool_decide (type <$> callee node = Some "Identifier")
        && bool_decide (callee node ≫= name = Some "require") in
      if bool_decide (type <$> callee node = Some "Import") || isRequire
      then firstArg
      else firstArg.

Definition getImportSource (node : Node) : option Node :=
  if String.eqb (type node) NodeType.ImportDeclaration then source node
  else None.

Definition getExportSource (node : Node) : option Node :=
  match source node with
  | None => None
  | Some src =>
      if negb (String.eqb (type src) NodeType.Literal) then None
      else Some src
  end.

(** The value of [req] when the visitor has dispatched on the kind of the
    visited node ([path.isImportDeclaration()] and its siblings). *)
Definition req (node : Node) : option Node :=
  let req : option Node := None in
  let req :=
    if String.eqb (type node) "ImportDeclaration"
    then getImportSource node else req in
  let req :=
    if String.eqb (type node) "CallExpression"
    then getRequireSource node else req in
  let req :=
    if String.eqb (type node) "ExportAllDeclaration"
       || String.eqb (type node) "ExportNamedDeclaration"
    then getExportSource node else req in
  req.

(** The visitor. *)
Definition extract (accepts : SpanCheck) (mappings : gmap string string)
    (node : Node) (magicString : MagicString) : Result MagicString :=
  match req node with
  | Some req =>
      if falsy (start req) || falsy (end_ req) then Threw PositionError
      else
        match value req with
        | None => Threw TypeError
        | Some v =>
            let newPath := rewrite v mappings in
            if truthy newPath
            then overwrite accepts (start req) (end_ req)
                           (quoted (default "" newPath)) magicString
            else Done magicString
        end
  | None => Done magicString
  end.

Definition generateBundle {Ast : Type} (accepts : SpanCheck)
    (filter : option string -> bool)
    (parse : string -> option Ast) (visited : Ast -> list Node)
    (toString : MagicString -> string)
    (options : IRenameExtensionsOptions) (st : State)
  : State * option Error :=
  generateBundleWith filter parse visited toString (extract accepts) options
                     st.

End Babel.

(** ** Second realization: acorn *)
Module Acorn.

Module NodeType.
Definition Literal := "Literal".
Definition CallExpresssion := "CallExpression".
Definition Identifier := "Identifier".
Definition ImportDeclaration := "ImportDeclaration".
Definition ExportNamedDeclaration := "ExportNamedDeclaration".
Definition ExportAllDeclaration := "ExportAllDeclaration".
End NodeType.

(** [node.type] as acorn sets it: every literal is a [Literal]. *)
Definition type (n : Node) : string :=
  match n with
  | StringLiteral _ _ _ => "Literal"
  | NumericLiteral _ _ _ => "Literal"
  | TemplateLiteral _ _ => "TemplateLiteral"
  | Identifier _ _ _ => "Identifier"
  | Import _ _ => "Import"
  | MemberExpression _ _ _ _ => "MemberExpression"
  | CallExpression _ _ _ _ => "CallExpression"
  | ImportDeclaration _ _ _ => "ImportDeclaration"
  | ExportNamedDeclaration _ _ _ => "ExportNamedDeclaration"
  | ExportAllDeclaration _ _ _ => "ExportAllDeclaration"
  end.

Definition getRequireSource (node : Node) : option Node :=
  if negb (String.eqb (type node) NodeType.CallExpresssion) then None
  else if negb (bool_decide (type <$> callee node = Some NodeType.Identifier))
          || isEmpty (arguments node) then None
  else
    let args := default [] (arguments node) in
    if negb (bool_decide (callee node ≫= name = Some "require"))
       || negb (bool_decide (type <$> head args = Some NodeType.Literal))
    then None
    else head args.

Definition getImportSource (node : Node) : option Node :=
  if negb (String.eqb (type node) NodeType.ImportDeclaration)
     || negb (bool_decide (type <$> source node = Some NodeType.Literal))
  then None
  else source node.

Definition getExportSource (node : Node) : option Node :=
  let exportNodes :=
    [NodeType.ExportAllDeclaration; NodeType.ExportNamedDeclaration] in
  if negb (existsb (String.eqb (type node)) exportNodes)
     || negb (bool_decide (is_Some (source node)))
     || negb (bool_decide (type <$> source node = Some NodeType.Literal))
  then None
  else source node.

(** [a || b] on [INode | false]. *)
Definition orelse (a b : option Node) : option Node :=
  match a with
  | Some _ => a
  | None => b
  end.

(** The value of [req] in the visitor. *)
Definition req (node : Node) : option Node :=
  orelse (getRequireSource node)
         (orelse (getImportSource node) (getExportSource node)).

(** The visitor. *)
Definition extract (accepts : SpanCheck) (mappings : gmap string string)
    (node : Node) (magicString : MagicString) : Result MagicString :=
  match req node with
  | Some req =>
      match value req with
      | None => Threw TypeError
      | Some v =>
          let newPath := rewrite v mappings in
          if truthy newPath
          then overwrite accepts (start req) (end_ req)
                         (quoted (default "" newPath)) magicString
          else Done magicString
      end
  | None => Done magicString
  end.

Definition generateBundle {Ast : Type} (accepts : SpanCheck)
    (filter : option string -> bool)
    (parse : string -> option Ast) (visited : Ast -> list Node)
    (toString : MagicString -> string)
    (options : IRenameExtensionsOptions) (st : State)
  : State * option Error :=
  generateBundleWith filter parse visited toString (extract accepts) options
                     st.

End Acorn.


(** ** Collaborators and inputs of the examples *)

(** A rendering of the patcher: the characters outside the recorded spans
    are kept and each span gives way to its replacement text.  It is meant
    for logs whose spans are defined, inside the text and disjoint, which
    is what the examples record. *)
Fixpoint render_from (edits : list RewriteEdit) (i until : Z) (text : string)
  : string :=
  match text with
  | EmptyString => ""
  | String c rest =>
      match List.find (fun e => bool_decide (edit_start e = Some i)) edits with
      | Some e =>
          replacementText e
          +:+ render_from edits (i + 1) (default i (edit_end e)) rest
      | None =>
          (if i <? until then "" else String c "")
          +:+ render_from edits (i + 1) until rest
      end
  end.

Definition render (magicString : MagicString) : string :=
  render_from (edits magicString) 0 0 (original magicString).

(** A span check for the examples: it accepts a span with both offsets
    defined that is not empty, lies inside the text and does not meet a
    span recorded before.  The examples hand the patcher such spans, which
    [magic-string] accepts, or a span without offsets, which it rejects. *)
Definition acceptsSpan (start end_ : option Z) (magicString : MagicString)
  : bool :=
  match start, end_ with
  | Some s, Some e =>
      (0 <=? s) && (s <? e)
      && (e <=? Z.of_nat (String.length (original magicString)))
      && forallb
           (fun edit =>
              match edit_start edit, edit_end edit with
              | Some s', Some e' => (e <=? s') || (e' <=? s)
              | _, _ => false
              end)
           (edits magicString)
  | _, _ => false
  end.

(** The filter of a plugin configured without [include] and [exclude]
    accepts every id that is a string. *)
Definition filterAll (id : option string) : bool :=
  bool_decide (is_Some id).

(** The filter of a plugin that excludes [/src/vendor.js]. *)
Definition filterNoVendor (id : option string) : bool :=
  match id with
  | Some s => negb (String.eqb s "/src/vendor.js")
  | None => false
  end.

(** The visited nodes of the texts used in the examples. *)
Definition parseExample (text : string) : option (list Node) :=
  if String.eqb text "import x from './util.js';" then
    Some [ImportDeclaration (Some 0) (Some 26)
            (StringLiteral (Some 14) (Some 25) "./util.js")]
  else if String.eqb text "const x = require('./util.js');" then
    Some [CallExpression (Some 10) (Some 30)
            (Identifier (Some 10) (Some 17) "require")
            [StringLiteral (Some 18) (Some 29) "./util.js"]]
  else if String.eqb text "export * from './types.ts';" then
    Some [ExportAllDeclaration (Some 0) (Some 27)
            (StringLiteral (Some 14) (Some 26) "./types.ts")]
  else if String.eqb text "import('./util.css')" then
    Some [CallExpression (Some 0) (Some 20) (Import (Some 0) (Some 6))
            [StringLiteral (Some 7) (Some 19) "./util.css"]]
  else if String.eqb text "export * from './lost.js';" then
    Some [ExportAllDeclaration (Some 0) (Some 26)
            (StringLiteral None None "./lost.js")]
  else if String.eqb text "require('./lost.css');" then
    Some [CallExpression (Some 0) (Some 21)
            (Identifier (Some 0) (Some 7) "require")
            [StringLiteral None None "./lost.css"]]
  else None.

(** The text a visitor makes of an example text. *)
Definition patched (extract : Node -> MagicString -> Result MagicString)
    (text : string) : Result string :=
  match parseExample text with
  | None => Threw SyntaxError
  | Some nodes =>
      match traverse extract nodes (MagicString_new text) with
      | Done magicString => Done (render magicString)
      | Threw e => Threw e
      end
  end.

Definition js_to_mjs : IRenameExtensionsOptions :=
  {| sourceMap := None; mappings := {[ ".js" := ".mjs" ]} |}.

Definition js_to_js : IRenameExtensionsOptions :=
  {| sourceMap := None; mappings := {[ ".js" := ".js" ]} |}.

Definition indexFile : File :=
  {| facadeModuleId := Some "/src/index.js"; fileName := "index.js";
     imports := ["util.js"]; code := Some "import x from './util.js';";
     map := None |}.

Definition vendorFile : File :=
  {| facadeModuleId := Some "/src/vendor.js"; fileName := "vendor.js";
     imports := ["util.js"]; code := Some "import x from './util.js';";
     map := Some (HostMap "AAAA") |}.

Definition lostFile : File :=
  {| facadeModuleId := Some "/src/lost.js"; fileName := "lost.js";
     imports := []; code := Some "export * from './lost.js';";
     map := None |}.

Definition lostCssFile : File :=
  {| facadeModuleId := Some "/src/lost.js"; fileName := "lost.js";
     imports := []; code := Some "require('./lost.css');";
     map := None |}.

Definition plainFile : File :=
  {| facadeModuleId := Some "/src/a.js"; fileName := "a.js";
     imports := []; code := None; map := None |}.

Definition oneFile (key : string) (file : File) : State :=
  {| heap := [file]; bundle := [(key, 0%nat)] |}.

(** Two chunks, the second excluded by [filterNoVendor] and emitted under
    the name the first one is renamed to. *)
Definition collidingBundle : State :=
  {| heap := [plainFile; vendorFile];
     bundle := [("a.js", 0%nat); ("a.mjs", 1%nat)] |}.

Definition indexAndVendor : State :=
  {| heap := [indexFile; vendorFile];
     bundle := [("index.js", 0%nat); ("vendor.js", 1%nat)] |}.

(** ** Extensions as the options document them *)

(** A character an extension is made of after its dot. *)
Definition extensionChar (c : ascii) : bool :=
  negb (Ascii.eqb c ".") && negb (Ascii.eqb c "/").

(** [Extensions should include the dot]: a dot followed by at least one
    character, none of them a dot or a separator, as in [.js] or [.mjs]. *)
Definition isExtension (e : string) : bool :=
  match e with
  | String c (String d w) =>
      Ascii.eqb c "." && forallb extensionChar (d :: list_ascii_of_string w)
  | _ => false
  end.

(** The state of the scan once the end of the last component is marked
    at [e] and no dot has been seen. *)
Definition markedEnd (e : Z) : Path.scan :=
  {| Path.startDot := -1; Path.startPart := 0; Path.end_ := e;
     Path.matchedSlash := false; Path.preDotState := 0 |}.

(** The state of the scan once the first dot from the right has been seen
    at [d], the component ending at [e]. *)
Definition markedDot (d e : Z) : Path.scan :=
  {| Path.startDot := d; Path.startPart := 0; Path.end_ := e;
     Path.matchedSlash := false; Path.preDotState := 0 |}.

(** ** Predicates on patchers, files and states *)

(** An edit whose text is a non-empty path between single quotes. *)
Definition quotedEdit (edit : RewriteEdit) : Prop :=
  exists newPath, newPath <> "" /\ replacementText edit = quoted newPath.

(** An edit whose two offsets are defined and not zero. *)
Definition positionedEdit (edit : RewriteEdit) : Prop :=
  falsy (edit_start edit) = false /\ falsy (edit_end edit) = false.

(** A file on which [if (file.code)] fails. *)
Definition codeless (file : File) : bool :=
  match code file with
  | Some text => String.eqb text ""
  | None => true
  end.

(** Every property name is the file name of the file stored under it. *)
Definition keysAreFileNames (st : State) : Prop :=
  forall key ref,
    bundle_get (bundle st) key = Some ref ->
    exists file, heap st !! ref = Some file /\ fileName file = key.

Definition js_to_mjs_no_map : IRenameExtensionsOptions :=
  {| sourceMap := Some false; mappings := {[ ".js" := ".mjs" ]} |}.

Definition codelessBundle : State :=
  {| heap := [plainFile;
              {| facadeModuleId := Some "/src/b.js"; fileName := "b.js";
                 imports := ["a.js"]; code := Some "";
                 map := Some (HostMap "BBBB") |}];
     bundle := [("a.js", 0%nat); ("b.js", 1%nat)] |}.

(** A visited node on which the two realizations have the same view: a
    call is a call of the identifier [require], and the reference either
    realization extracts, if any, is a string literal with defined,
    non-zero offsets. *)
Definition plainSpecifier (node : Node) : Prop :=
  (Babel.type node = "CallExpression" ->
   callee node ≫= name = Some "require")
  /\ (forall r, Babel.req node = Some r \/ Acorn.req node = Some r ->
        Babel.type r = "StringLiteral"
        /\ falsy (start r) = false /\ falsy (end_ r) = false).

(** A parser for the examples whose visited nodes are all plain. *)
Definition parsePlain (text : string) : option (list Node) :=
  if String.eqb text "import x from './util.js';" then
    Some [ImportDeclaration (Some 0) (Some 26)
            (StringLiteral (Some 14) (Some 25) "./util.js")]
  else if String.eqb text "const x = require('./util.js');" then
    Some [CallExpression (Some 10) (Some 30)
            (Identifier (Some 10) (Some 17) "require")
            [StringLiteral (Some 18) (Some 29) "./util.js"]]
  else None.

(** The same programs as a second front end gives them: a tree of its
    own, whose walker hands out the nodes of the body. *)
Inductive Program : Type :=
| program (body : list Node).

Definition body (p : Program) : list Node :=
  match p with
  | program nodes => nodes
  end.

Definition parseProgram (text : string) : option Program :=
  program <$> parsePlain text.

(** The two front ends agree on a text: both parsers reject it, or both
    accept it and the two walkers hand the visitors the same nodes in the
    same order, all of them plain. *)
Definition agreeOn {AstB AstA : Type}
    (parseB : string -> option AstB) (visitedB : AstB -> list Node)
    (parseA : string -> option AstA) (visitedA : AstA -> list Node)
    (text : string) : Prop :=
  match parseB text, parseA text with
  | Some b, Some a =>
      visitedB b = visitedA a /\ Forall plainSpecifier (visitedB b)
  | None, None => True
  | _, _ => False
  end.

(** * Properties *)

(** Case analysis on the tests of one iteration of the scan. *)
Ltac step_cases :=
  unfold Path.step;
  repeat match goal with
         | |- context [if ?b then _ else _] => destruct b eqn:?
         end;
  cbn [fst snd Path.startDot Path.startPart Path.end_ Path.matchedSlash
       Path.preDotState] in *.

(** ** Strings *)

Lemma append_cons (a : ascii) (s t : string) :
  String a s +:+ t = String a (s +:+ t).
Proof. reflexivity. Qed.

Lemma length_append (s t : string) :
  String.length (s +:+ t) = (String.length s + String.length t)%nat.
Proof.
  induction s as [|a s IH]; [reflexivity|].
  rewrite append_cons. cbn [String.length]. now rewrite IH.
Qed.

Lemma substring_prefix (s t : string) :
  substring 0 (String.length s) (s +:+ t) = s.
Proof.
  induction s as [|a s IH].
  - cbn [String.length]. destruct ("" +:+ t); reflexivity.
  - rewrite append_cons. cbn [String.length substring]. now rewrite IH.
Qed.

Lemma substring_0_0 (s : string) : substring 0 0 s = "".
Proof. destruct s; reflexivity. Qed.

(** [s.slice(0, -0)] is empty, whatever [s] is. *)
Lemma slice_0_0 (s : string) : slice s 0 0 = "".
Proof.
  unfold slice. cbn [Z.ltb Z.compare].
  replace (Z.to_nat (Z.min 0 (Z.of_nat (String.length s)))) with 0%nat by lia.
  replace (Z.to_nat _) with 0%nat by lia.
  apply substring_0_0.
Qed.

(** Cutting a non-empty suffix off by its length leaves the prefix. *)
Lemma slice_drop_suffix (q e : string) :
  e <> "" -> slice (q +:+ e) 0 (- Z.of_nat (String.length e)) = q.
Proof.
  intros He.
  assert (0 < String.length e)%nat as Hlen
    by (destruct e; [congruence | cbn [String.length]; lia]).
  unfold slice. rewrite length_append.
  destruct (Z.ltb_spec (- Z.of_nat (String.length e)) 0) as [_|]; [|lia].
  cbn [Z.ltb Z.compare].
  replace (Z.to_nat (Z.min 0 _)) with 0%nat by lia.
  replace (Z.to_nat _) with (String.length q) by lia.
  apply substring_prefix.
Qed.

Lemma js_or_Some (s b : string) : s <> "" -> js_or (Some s) b = s.
Proof. destruct s; [congruence | reflexivity]. Qed.

Lemma truthy_Some (s : string) : s <> "" -> truthy (Some s) = true.
Proof. destruct s; [congruence | reflexivity]. Qed.

(** ** The Extension Rewrite Rule *)

(** What [rewrite] computes, whatever the extension is. *)
Lemma rewrite_unfold (input : string) (extensions : gmap string string) :
  rewrite input extensions =
  (fun mapped =>
     slice input 0 (- Z.of_nat (String.length (Path.extname input))) +:+ mapped)
  <$> extensions !! Path.extname input.
Proof. unfold rewrite. now destruct (extensions !! Path.extname input). Qed.

Lemma rewrite_None (input : string) (extensions : gmap string string) :
  extensions !! Path.extname input = None -> rewrite input extensions = None.
Proof. intros H. rewrite rewrite_unfold, H. reflexivity. Qed.

Lemma rewrite_suffix (q e mapped : string) (extensions : gmap string string) :
  Path.extname (q +:+ e) = e -> e <> "" -> extensions !! e = Some mapped ->
  rewrite (q +:+ e) extensions = Some (q +:+ mapped).
Proof.
  intros Hext He Hm. rewrite rewrite_unfold, Hext, Hm. cbn.
  now rewrite slice_drop_suffix.
Qed.

(** ** [path.extname] *)

Lemma length_list_ascii_of_string (s : string) :
  List.length (list_ascii_of_string s) = String.length s.
Proof. induction s as [|a s IH]; cbn; congruence. Qed.

Lemma substring_split (s : string) (k : nat) :
  (k <= String.length s)%nat ->
  s = substring 0 k s +:+ substring k (String.length s - k) s.
Proof.
  revert k. induction s as [|a s IH]; intros k Hk.
  - cbn in Hk. assert (k = 0%nat) as -> by lia. reflexivity.
  - destruct k as [|k].
    + cbn [substring String.length Nat.sub]. change ("" +:+ ?x) with x.
      f_equal. clear. induction s as [|b s IH]; [reflexivity|].
      cbn [substring String.length]. now rewrite <- IH.
    + cbn [substring String.length Nat.sub]. rewrite append_cons. f_equal.
      apply IH. cbn in Hk. lia.
Qed.

Lemma length_substring (s : string) (a b : nat) :
  (a + b <= String.length s)%nat -> String.length (substring a b s) = b.
Proof.
  revert a b. induction s as [|c s IH]; intros a b H; cbn in H.
  - assert (a = 0%nat) as -> by lia. assert (b = 0%nat) as -> by lia.
    reflexivity.
  - destruct a as [|a].
    + destruct b as [|b]; [reflexivity|].
      cbn [substring String.length]. f_equal. apply (IH 0%nat). lia.
    + cbn [substring]. apply IH. lia.
Qed.

(** [slice] between two offsets in range, in order. *)
Lemma slice_in_range (s : string) (a b : Z) :
  0 <= a <= b -> b <= Z.of_nat (String.length s) ->
  slice s a b = substring (Z.to_nat a) (Z.to_nat (b - a)) s.
Proof.
  intros Hab Hb. unfold slice.
  destruct (Z.ltb_spec a 0); [lia|]. destruct (Z.ltb_spec b 0); [lia|].
  f_equal; lia.
Qed.

(** The length of what [input.slice(0, -n)] keeps. *)
Lemma length_slice_drop (s : string) (n : nat) :
  (0 < n <= String.length s)%nat ->
  String.length (slice s 0 (- Z.of_nat n)) = (String.length s - n)%nat.
Proof.
  intros Hn. unfold slice.
  destruct (Z.ltb_spec (- Z.of_nat n) 0); [|lia]. cbn [Z.ltb Z.compare].
  rewrite length_substring; lia.
Qed.

Lemma scanned_mono (n i j : Z) (st : Path.scan) :
  j <= i -> scanned n i st -> scanned n j st.
Proof. unfold scanned. intros Hj (H1 & H2 & H3 & H4). repeat split; lia. Qed.

Lemma step_scanned (n i : Z) (code : ascii) (st : Path.scan) :
  0 <= i < n -> scanned n i st ->
  scanned n (i - 1) (fst (Path.step i code st)).
Proof.
  unfold scanned. intros Hi (H1 & H2 & H3 & H4).
  step_cases; repeat split; lia.
Qed.

Lemma loop_scanned (n : Z) (rev_codes : list ascii) :
  forall i st,
    i = Z.of_nat (List.length rev_codes) - 1 -> i < n -> scanned n i st ->
    scanned n (-1) (Path.loop rev_codes i st).
Proof.
  induction rev_codes as [|code rest IH]; intros i st Hi Hn Hst.
  - cbn in Hi. now subst i.
  - cbn [Path.loop]. cbn [List.length] in Hi.
    pose proof (step_scanned n i code st ltac:(lia) Hst) as Hstep.
    destruct (Path.step i code st) as [st' brk]. cbn [fst] in Hstep.
    destruct brk.
    + apply (scanned_mono n (i - 1)); [lia | assumption].
    + apply IH; [lia | lia | assumption].
Qed.

(** Once the end of the last component is marked, it stays. *)
Lemma step_end (i : Z) (code : ascii) (st : Path.scan) :
  Path.end_ st <> -1 -> Path.end_ (fst (Path.step i code st)) = Path.end_ st.
Proof. intros H. step_cases; lia. Qed.

Lemma loop_end (rev_codes : list ascii) :
  forall i st,
    Path.end_ st <> -1 -> Path.end_ (Path.loop rev_codes i st) = Path.end_ st.
Proof.
  induction rev_codes as [|code rest IH]; intros i st H; [reflexivity|].
  cbn [Path.loop].
  pose proof (step_end i code st H) as Hstep.
  destruct (Path.step i code st) as [st' brk]. cbn [fst] in Hstep.
  destruct brk; [assumption|]. rewrite IH; lia.
Qed.

(** The first character that is not a separator marks the end of the last
    component, and the scan goes on. *)
Lemma step_marks_end (i : Z) (code : ascii) (st : Path.scan) :
  Ascii.eqb code "/" = false -> Path.end_ st = -1 ->
  snd (Path.step i code st) = false
  /\ Path.end_ (fst (Path.step i code st)) = i + 1.
Proof.
  intros Hcode Hend. unfold Path.step, Path.CHAR_FORWARD_SLASH.
  rewrite Hcode, Hend. cbn [Z.eqb Pos.eqb].
  step_cases; split; reflexivity.
Qed.

(** Without a dot no extension starts. *)
Lemma step_no_dot (i : Z) (code : ascii) (st : Path.scan) :
  code <> "."%char ->
  Path.startDot (fst (Path.step i code st)) = Path.startDot st.
Proof.
  intros H. unfold Path.step, Path.CHAR_DOT.
  rewrite (proj2 (Ascii.eqb_neq code ".") H).
  step_cases; reflexivity.
Qed.

Lemma loop_no_dot (rev_codes : list ascii) :
  Forall (fun code => code <> "."%char) rev_codes ->
  forall i st,
    Path.startDot (Path.loop rev_codes i st) = Path.startDot st.
Proof.
  induction 1 as [|code rest Hcode Hrest IH]; intros i st; [reflexivity|].
  cbn [Path.loop].
  pose proof (step_no_dot i code st Hcode) as Hstep.
  destruct (Path.step i code st) as [st' brk]. cbn [fst] in Hstep.
  destruct brk; [assumption|]. now rewrite IH.
Qed.

(** A path without a dot has the empty extension. *)
Lemma extname_no_dot (path : string) :
  Forall (fun code => code <> "."%char) (list_ascii_of_string path) ->
  Path.extname path = "".
Proof.
  intros H. unfold Path.extname.
  rewrite loop_no_dot by (apply Forall_rev; assumption).
  reflexivity.
Qed.

Lemma scan_of_scanned (path : string) :
  scanned (Z.of_nat (String.length path)) (-1) (Path.scan_of path).
Proof.
  apply loop_scanned.
  - now rewrite length_rev, length_list_ascii_of_string.
  - lia.
  - unfold scanned, Path.init. cbn. repeat split; lia.
Qed.

(** A non-empty extension is the part of the path between the last dot of
    the last component and the end of that component, and the dot is not
    the first character of the path. *)
Lemma extname_nonempty (path : string) :
  Path.extname path <> "" ->
  let st := Path.scan_of path in
  1 <= Path.startDot st /\ Path.startDot st < Path.end_ st
  /\ Path.end_ st <= Z.of_nat (String.length path)
  /\ Path.extname path
     = substring (Z.to_nat (Path.startDot st))
                 (Z.to_nat (Path.end_ st - Path.startDot st)) path.
Proof.
  intros Hne st.
  pose proof (scan_of_scanned path) as (H1 & H2 & H3 & H4).
  fold st in H1, H2, H3, H4.
  unfold Path.extname in *. fold (Path.scan_of path) in *. fold st in Hne |- *.
  destruct (Z.eqb_spec (Path.startDot st) (-1)); [now cbn in Hne|].
  destruct (Z.eqb_spec (Path.end_ st) (-1)); [now cbn in Hne|].
  destruct (Z.eqb_spec (Path.preDotState st) 0); [now cbn in Hne|].
  cbn [orb] in *.
  destruct (_ && _); [congruence|].
  repeat split; try lia.
  apply slice_in_range; lia.
Qed.

(** A non-empty extension is shorter than the path. *)
Lemma extname_shorter (path : string) :
  Path.extname path <> "" ->
  (0 < String.length (Path.extname path) < String.length path)%nat.
Proof.
  intros Hne. destruct (extname_nonempty path Hne) as (Hs & He & Hn & ->).
  rewrite length_substring; lia.
Qed.

(** When the path does not end in a separator, it ends with its
    extension. *)
Lemma extname_suffix (path : string) :
  Path.trailingSeparator path = false ->
  exists q, path = q +:+ Path.extname path.
Proof.
  intros Hsep.
  destruct (string_dec (Path.extname path) "") as [->|Hne].
  { exists path. clear. induction path as [|a s IH]; [reflexivity|].
    rewrite append_cons. now rewrite <- IH. }
  destruct (extname_nonempty path Hne) as (Hs & He & Hn & Hext).
  assert (Path.end_ (Path.scan_of path) = Z.of_nat (String.length path)) as Hend.
  { unfold Path.scan_of, Path.trailingSeparator in *.
    pose proof (length_rev (list_ascii_of_string path)) as Hlen.
    rewrite length_list_ascii_of_string in Hlen.
    destruct (rev (list_ascii_of_string path)) as [|code rest];
      [cbn in *; unfold Path.scan_of in *; cbn in *; lia|].
    cbn [Path.loop]. cbn [List.length] in Hlen.
    destruct (step_marks_end (Z.of_nat (String.length path) - 1) code
                Path.init Hsep eq_refl) as [Hbrk Hmark].
    destruct (Path.step _ code Path.init) as [st' brk].
    cbn [fst snd] in Hbrk, Hmark. subst brk.
    rewrite loop_end; lia. }
  rewrite Hext, Hend.
  exists (substring 0 (Z.to_nat (Path.startDot (Path.scan_of path))) path).
  rewrite (substring_split path (Z.to_nat (Path.startDot (Path.scan_of path))))
    at 1 by lia.
  do 2 f_equal. lia.
Qed.

(** With a non-empty extension the rewritten path is never empty: the
    fallback [rewrite(x) || x] and the test [if (newPath)] then see a
    match as a match. *)
Lemma rewrite_nonempty (input r : string) (extensions : gmap string string) :
  Path.extname input <> "" -> rewrite input extensions = Some r -> r <> "".
Proof.
  intros Hne. rewrite rewrite_unfold.
  destruct (extensions !! Path.extname input) as [mapped|]; [|discriminate].
  intros [= <-] Hempty.
  apply (f_equal String.length) in Hempty.
  rewrite length_append, length_slice_drop in Hempty
    by (pose proof (extname_shorter input Hne); lia).
  pose proof (extname_shorter input Hne). cbn in Hempty. lia.
Qed.

(** Hence the fallback of the callers keeps the rewritten path. *)
Lemma fallback_keeps_match (input r : string)
    (extensions : gmap string string) :
  Path.extname input <> "" -> rewrite input extensions = Some r ->
  js_or (rewrite input extensions) input = r.
Proof.
  intros Hne Hr. rewrite Hr. apply js_or_Some.
  now apply (rewrite_nonempty input r extensions).
Qed.

(** On a path that does not end in a separator, a non-empty mapped
    extension is replaced. *)
Lemma rewrite_no_trailing_separator (p mapped : string)
    (m : gmap string string) :
  Path.trailingSeparator p = false -> Path.extname p <> "" ->
  m !! Path.extname p = Some mapped ->
  exists q, p = q +:+ Path.extname p /\ rewrite p m = Some (q +:+ mapped).
Proof.
  intros Hsep Hne Hm. destruct (extname_suffix p Hsep) as [q Hq].
  exists q. split; [assumption|].
  rewrite Hq at 1. apply rewrite_suffix; [now rewrite <- Hq|assumption..].
Qed.

(** ** The Extension Rewrite Rule on paths *)

(** C1, as stated, fails: on a path without extension and a mapping with
    the empty string as a key, [rewrite] does not return the path with the
    mapped value appended; it returns the mapped value alone. *)
Lemma rewrite_appends_fails_without_extension :
  let p := "README" in
  let m : gmap string string := {[ "" := ".txt" ]} in
  m !! Path.extname p = Some ".txt"
  /\ rewrite p m = Some ".txt"
  /\ rewrite p m <> Some (p +:+ ".txt").
Proof. vm_compute. repeat split; congruence. Qed.

(** The extension [path.extname] returns need not end the path: trailing
    separators are not part of it. *)
Example rewrite_trailing_separator :
  Path.extname "a.js/" = ".js"
  /\ rewrite "a.js/" {[ ".js" := ".mjs" ]} = Some "a..mjs".
Proof. vm_compute. split; reflexivity. Qed.

(** C1 (amended): when the extension of [p] is a non-empty key of [m] and
    [p] does not end in a separator, [p] ends with its extension and
    [rewrite p m] is [p] with that extension replaced by the mapped value;
    when the extension is not a key of [m], [rewrite p m] is the no-match
    value and the fallback [rewrite(p, m) || p] of the callers gives [p]
    back. *)
Theorem rewrite_replaces_extension (p : string) (m : gmap string string) :
  (forall mapped,
      Path.extname p <> "" -> Path.trailingSeparator p = false ->
      m !! Path.extname p = Some mapped ->
      exists q, p = q +:+ Path.extname p
                /\ rewrite p m = Some (q +:+ mapped))
  /\ (m !! Path.extname p = None ->
      rewrite p m = None /\ js_or (rewrite p m) p = p).
Proof.
  split.
  - intros mapped Hne Hsep Hm. now apply rewrite_no_trailing_separator.
  - intros Hm. rewrite (rewrite_None _ _ Hm). split; reflexivity.
Qed.

Lemma rewrite_replaces_extension_witness :
  (exists q, "index.js" = q +:+ Path.extname "index.js"
             /\ rewrite "index.js" {[ ".js" := ".mjs" ]}
                = Some (q +:+ ".mjs"))
  /\ (rewrite "util.css" {[ ".js" := ".mjs" ]} = None
      /\ js_or (rewrite "util.css" {[ ".js" := ".mjs" ]}) "util.css"
         = "util.css").
Proof.
  split.
  - apply (proj1 (rewrite_replaces_extension "index.js" {[ ".js" := ".mjs" ]})
             ".mjs");
      [vm_compute; discriminate | reflexivity | vm_compute; reflexivity].
  - apply (proj2 (rewrite_replaces_extension "util.css" {[ ".js" := ".mjs" ]})).
    vm_compute; reflexivity.
Defined.

(** C9: on a path whose extension is empty, a mapping with the empty string
    as a key makes [rewrite] return the mapped value alone: the slice
    [input.slice(0, -0)] is empty. *)
Theorem rewrite_empty_extension (p mapped : string) (m : gmap string string) :
  Path.extname p = "" -> m !! "" = Some mapped -> rewrite p m = Some mapped.
Proof.
  intros Hext Hm. rewrite rewrite_unfold, Hext, Hm. cbn.
  now rewrite slice_0_0.
Qed.

Lemma rewrite_empty_extension_witness :
  rewrite "README" {[ "" := ".txt" ]} = Some ".txt".
Proof.
  apply rewrite_empty_extension; vm_compute; reflexivity.
Defined.

(** In particular on every path without a dot. *)
Lemma rewrite_no_dot (p mapped : string) (m : gmap string string) :
  Forall (fun code => code <> "."%char) (list_ascii_of_string p) ->
  m !! "" = Some mapped -> rewrite p m = Some mapped.
Proof.
  intros Hdot Hm. rewrite rewrite_unfold, (extname_no_dot p Hdot), Hm. cbn.
  now rewrite slice_0_0.
Qed.

(** ** The call-form extractor *)

(** The Babel-backed [getRequireSource] on a call, by cases on its
    arguments; the callee plays no part. *)
Lemma babel_getRequireSource_call (s e : option Z) (callee : Node)
    (args : list Node) :
  Babel.getRequireSource (CallExpression s e callee args) =
  match args with
  | StringLiteral ls le v :: _ => Some (StringLiteral ls le v)
  | _ => None
  end.
Proof.
  unfold Babel.getRequireSource.
  destruct args as [|a rest]; [reflexivity|].
  destruct a; try reflexivity.
  cbn. now destruct (_ || _).
Qed.

(** The acorn-backed [getRequireSource] on a call: the callee has to be the
    identifier [require], and any literal is taken. *)
Lemma acorn_getRequireSource_call (s e : option Z) (callee : Node)
    (args : list Node) :
  Acorn.getRequireSource (CallExpression s e callee args) =
  match callee, args with
  | Identifier _ _ x, StringLiteral ls le v :: _ =>
      if String.eqb x "require" then Some (StringLiteral ls le v) else None
  | Identifier _ _ x, NumericLiteral ls le v :: _ =>
      if String.eqb x "require" then Some (NumericLiteral ls le v) else None
  | _, _ => None
  end.
Proof.
  unfold Acorn.getRequireSource.
  destruct callee as [| | |cs ce x| | | | | |]; try reflexivity.
  destruct args as [|a rest]; [reflexivity|].
  cbn.
  destruct (String.eqb_spec x "require") as [->|Hne].
  - destruct a; reflexivity.
  - rewrite (bool_decide_eq_false_2 (Some x = Some "require")) by congruence.
    destruct a; reflexivity.
Qed.

(** C4: on a call expression the Babel-backed [getRequireSource] yields a
    node exactly when the call has a first argument and that argument is a
    string literal, and the node it yields is that literal, whatever the
    callee is. *)
Theorem getRequireSource_first_string_literal (s e : option Z)
    (callee : Node) (args : list Node) (l : Node) :
  Babel.getRequireSource (CallExpression s e callee args) = Some l
  <-> exists rest ls le v, args = l :: rest /\ l = StringLiteral ls le v.
Proof.
  rewrite babel_getRequireSource_call. split.
  - destruct args as [|a rest]; [discriminate|].
    destruct a; try discriminate.
    intros [= <-]. now eexists _, _, _, _.
  - intros (rest & ls & le & v & -> & ->). reflexivity.
Qed.

(** The over-match of C4 on an ordinary call, [foo('./x.js')]. *)
Example getRequireSource_ordinary_call :
  Babel.getRequireSource
    (CallExpression (Some 0) (Some 13) (Identifier (Some 0) (Some 3) "foo")
                    [StringLiteral (Some 4) (Some 12) "./x.js"])
  = Some (StringLiteral (Some 4) (Some 12) "./x.js").
Proof. reflexivity. Qed.

(** C8, as stated, fails: on [foo('./x.js')] the Babel-backed extractor
    yields the literal and the acorn-backed one yields nothing. *)
Lemma getRequireSource_realizations_differ :
  let call :=
    CallExpression (Some 0) (Some 13) (Identifier (Some 0) (Some 3) "foo")
                   [StringLiteral (Some 4) (Some 12) "./x.js"] in
  Babel.getRequireSource call = Some (StringLiteral (Some 4) (Some 12) "./x.js")
  /\ Acorn.getRequireSource call = None.
Proof. split; reflexivity. Qed.

(** C8 (amended): on every call expression, a string literal the
    acorn-backed [getRequireSource] yields is also what the Babel-backed
    one yields; when the callee is the identifier [require], what the
    Babel-backed one yields is also what the acorn-backed one yields; and
    when the callee is anything else, the acorn-backed one yields nothing
    while the Babel-backed one still yields a first argument that is a
    string literal. *)
Theorem getRequireSource_acorn_within_babel (s e : option Z) (callee : Node)
    (args : list Node) (l : Node) :
  (Acorn.getRequireSource (CallExpression s e callee args) = Some l ->
   Babel.type l = "StringLiteral" ->
   Babel.getRequireSource (CallExpression s e callee args) = Some l)
  /\ (Babel.type callee = "Identifier" -> name callee = Some "require" ->
      Babel.getRequireSource (CallExpression s e callee args) = Some l ->
      Acorn.getRequireSource (CallExpression s e callee args) = Some l)
  /\ (~ (Acorn.type callee = "Identifier" /\ name callee = Some "require") ->
      Acorn.getRequireSource (CallExpression s e callee args) = None
      /\ (forall rest, args = l :: rest -> Babel.type l = "StringLiteral" ->
          Babel.getRequireSource (CallExpression s e callee args) = Some l)).
Proof.
  rewrite babel_getRequireSource_call, acorn_getRequireSource_call.
  split; [|split].
  - destruct callee; try discriminate.
    destruct args as [|a rest]; [discriminate|].
    destruct a; try discriminate; destruct (String.eqb _ _); try discriminate.
    + trivial.
    + intros [= <-]. discriminate.
  - destruct callee; try discriminate.
    intros _ [= ->].
    destruct args as [|a rest]; [discriminate|].
    destruct a; try discriminate. trivial.
  - intros Hcallee. split.
    + destruct callee as [| | |cs ce x| | | | | |]; try reflexivity.
      destruct (String.eqb_spec x "require") as [->|Hne].
      * exfalso. apply Hcallee. split; reflexivity.
      * destruct args as [|a rest]; [reflexivity|]. now destruct a.
    + intros rest -> Hl. destruct l; try discriminate. reflexivity.
Qed.

Lemma getRequireSource_acorn_within_babel_witness :
  let callee := Identifier (Some 0) (Some 7) "require" in
  let other := Identifier (Some 0) (Some 3) "foo" in
  let l := StringLiteral (Some 8) (Some 16) "./x.js" in
  (Babel.getRequireSource (CallExpression (Some 0) (Some 17) callee [l])
   = Some l
   /\ Acorn.getRequireSource (CallExpression (Some 0) (Some 17) callee [l])
      = Some l)
  /\ (Acorn.getRequireSource (CallExpression (Some 0) (Some 17) other [l])
      = None
      /\ Babel.getRequireSource (CallExpression (Some 0) (Some 17) other [l])
         = Some l).
Proof.
  intros callee other l.
  pose proof (getRequireSource_acorn_within_babel
                (Some 0) (Some 17) callee [l] l) as (Hab & Hba & _).
  pose proof (getRequireSource_acorn_within_babel
                (Some 0) (Some 17) other [l] l) as (_ & _ & Hother).
  assert (~ (Acorn.type other = "Identifier"
             /\ name other = Some "require")) as Hnot
    by (intros [_ H]; discriminate H).
  split; split.
  - apply Hab; reflexivity.
  - apply Hba; reflexivity.
  - exact (proj1 (Hother Hnot)).
  - exact (proj2 (Hother Hnot) [] eq_refl eq_refl).
Defined.

(** ** The visitor *)

Lemma babel_extract_unfold (accepts : SpanCheck) (m : gmap string string)
    (node r : Node) (ms : MagicString) :
  Babel.req node = Some r ->
  Babel.extract accepts m node ms =
  if falsy (start r) || falsy (end_ r) then Threw PositionError
  else match value r with
       | None => Threw TypeError
       | Some v =>
           if truthy (rewrite v m)
           then overwrite accepts (start r) (end_ r)
                          (quoted (default "" (rewrite v m))) ms
           else Done ms
       end.
Proof. intros H. unfold Babel.extract. now rewrite H. Qed.

Lemma acorn_extract_unfold (accepts : SpanCheck) (m : gmap string string)
    (node r : Node) (ms : MagicString) :
  Acorn.req node = Some r ->
  Acorn.extract accepts m node ms =
  match value r with
  | None => Threw TypeError
  | Some v =>
      if truthy (rewrite v m)
      then overwrite accepts (start r) (end_ r)
                     (quoted (default "" (rewrite v m))) ms
      else Done ms
  end.
Proof. intros H. unfold Acorn.extract. now rewrite H. Qed.

(** The acorn-backed visitor has no position guard. *)
Lemma acorn_extract_no_PositionError (accepts : SpanCheck)
    (m : gmap string string) (node : Node) (ms : MagicString) :
  Acorn.extract accepts m node ms <> Threw PositionError.
Proof.
  unfold Acorn.extract.
  destruct (Acorn.req node) as [r|]; [|discriminate].
  destruct (value r); [|discriminate].
  destruct (truthy _); [|discriminate].
  unfold overwrite. destruct (accepts _ _ _); discriminate.
Qed.

(** C3, as stated, fails: for the double-quoted specifier of
    [import x from "./util.js";] both visitors record a replacement text
    in single quotes, not in the quoting character of the original. *)
Lemma extract_requotes_with_single_quotes :
  let text :=
    "import x from " +:+ String dquote ("./util.js" +:+ String dquote ";") in
  let node :=
    ImportDeclaration (Some 0) (Some 26)
                      (StringLiteral (Some 14) (Some 25) "./util.js") in
  let m : gmap string string := {[ ".js" := ".mjs" ]} in
  let edit :=
    {| edit_start := Some 14; edit_end := Some 25;
       replacementText := "'./util.mjs'" |} in
  String.get 14 text = Some dquote
  /\ rewrite "./util.js" m = Some "./util.mjs"
  /\ Babel.extract acceptsSpan m node (MagicString_new text)
     = Done {| original := text; edits := [edit] |}
  /\ Acorn.extract acceptsSpan m node (MagicString_new text)
     = Done {| original := text; edits := [edit] |}
  /\ replacementText edit
     <> String dquote ("./util.mjs" +:+ String dquote "").
Proof. vm_compute. repeat split; congruence. Qed.

(** C3 (amended): for a reference [r] a visitor processes (in the
    Babel-backed visitor, one with non-zero defined offsets), when the
    rewrite rule returns a non-empty replacement the visitor hands the
    patcher one [overwrite] of the span of [r] with the text: a single
    quote, the rewritten path, a single quote.  Where the patcher accepts
    that span the edit is recorded with that text; where it rejects the
    span (as [magic-string] does for a span without offsets or an empty
    one) the exception of the patcher leaves the visitor and nothing is
    recorded.  When the rule returns no-match the visitor leaves the
    patcher as it was, so no text is changed. *)
Theorem extract_records_single_quoted (accepts : SpanCheck)
    (m : gmap string string) (node r : Node) (v : string)
    (ms : MagicString) :
  value r = Some v ->
  (Babel.req node = Some r -> falsy (start r) = false ->
   falsy (end_ r) = false ->
   (forall newPath, rewrite v m = Some newPath -> newPath <> "" ->
      Babel.extract accepts m node ms
      = overwrite accepts (start r) (end_ r) ("'" +:+ newPath +:+ "'") ms
      /\ (accepts (start r) (end_ r) ms = true ->
          Babel.extract accepts m node ms
          = Done (appendEdit (start r) (end_ r) ("'" +:+ newPath +:+ "'")
                             ms))
      /\ (accepts (start r) (end_ r) ms = false ->
          Babel.extract accepts m node ms = Threw PatcherError))
   /\ (rewrite v m = None -> Babel.extract accepts m node ms = Done ms))
  /\ (Acorn.req node = Some r ->
      (forall newPath, rewrite v m = Some newPath -> newPath <> "" ->
         Acorn.extract accepts m node ms
         = overwrite accepts (start r) (end_ r) ("'" +:+ newPath +:+ "'") ms
         /\ (accepts (start r) (end_ r) ms = true ->
             Acorn.extract accepts m node ms
             = Done (appendEdit (start r) (end_ r)
                                ("'" +:+ newPath +:+ "'") ms))
         /\ (accepts (start r) (end_ r) ms = false ->
             Acorn.extract accepts m node ms = Threw PatcherError))
      /\ (rewrite v m = None -> Acorn.extract accepts m node ms = Done ms)).
Proof.
  intros Hv. split.
  - intros Hreq Hs He.
    rewrite (babel_extract_unfold _ _ _ _ _ Hreq), Hs, He, Hv. cbn [orb].
    split.
    + intros newPath -> Hne. rewrite truthy_Some by assumption.
      cbn [default quoted]. unfold overwrite.
      repeat split; intros ->; reflexivity.
    + now intros ->.
  - intros Hreq. rewrite (acorn_extract_unfold _ _ _ _ _ Hreq), Hv.
    split.
    + intros newPath -> Hne. rewrite truthy_Some by assumption.
      cbn [default quoted]. unfold overwrite.
      repeat split; intros ->; reflexivity.
    + now intros ->.
Qed.

Lemma extract_records_single_quoted_witness :
  let text := "const x = require('./util.js');" in
  let l := StringLiteral (Some 18) (Some 29) "./util.js" in
  let node :=
    CallExpression (Some 10) (Some 30)
                   (Identifier (Some 10) (Some 17) "require") [l] in
  let m : gmap string string := {[ ".js" := ".mjs" ]} in
  let css : gmap string string := {[ ".css" := ".scss" ]} in
  (Babel.extract acceptsSpan m node (MagicString_new text)
   = Done (appendEdit (Some 18) (Some 29) "'./util.mjs'"
                      (MagicString_new text))
   /\ Babel.extract acceptsSpan css node (MagicString_new text)
      = Done (MagicString_new text))
  /\ (Acorn.extract acceptsSpan m node (MagicString_new text)
      = Done (appendEdit (Some 18) (Some 29) "'./util.mjs'"
                         (MagicString_new text))
      /\ Acorn.extract acceptsSpan css node (MagicString_new text)
         = Done (MagicString_new text)).
Proof.
  intros text l node m css.
  destruct (extract_records_single_quoted acceptsSpan m node l "./util.js"
              (MagicString_new text) eq_refl) as [Hb Ha].
  destruct (extract_records_single_quoted acceptsSpan css node l "./util.js"
              (MagicString_new text) eq_refl) as [Hb' Ha'].
  assert (rewrite "./util.js" m = Some "./util.mjs") as Hm
    by (vm_compute; reflexivity).
  assert (rewrite "./util.js" css = None) as Hcss
    by (vm_compute; reflexivity).
  assert ("./util.mjs" <> "") as Hne by discriminate.
  split; split.
  - exact (proj1 (proj2 (proj1 (Hb eq_refl eq_refl eq_refl)
                               "./util.mjs" Hm Hne)) eq_refl).
  - exact (proj2 (Hb' eq_refl eq_refl eq_refl) Hcss).
  - exact (proj1 (proj2 (proj1 (Ha eq_refl) "./util.mjs" Hm Hne)) eq_refl).
  - exact (proj2 (Ha' eq_refl) Hcss).
Defined.

(** The span the acorn-backed visitor hands over is the reference's own,
    offsets absent included: on a literal without offsets it is the
    patcher that throws. *)
Example acorn_extract_without_offsets :
  Acorn.extract acceptsSpan {[ ".js" := ".mjs" ]}
    (ImportDeclaration (Some 0) (Some 26) (StringLiteral None None "./util.js"))
    (MagicString_new "import x from './util.js';")
  = Threw PatcherError.
Proof. vm_compute. reflexivity. Qed.

(** C10: in the Babel-backed visitor a reference whose start offset is 0
    raises the position error although both offsets are defined: the guard
    tests [!start || !end]. *)
Theorem extract_start_zero_throws (accepts : SpanCheck)
    (m : gmap string string) (node r : Node) (e : Z) (ms : MagicString) :
  Babel.req node = Some r -> start r = Some 0 -> end_ r = Some e ->
  Babel.extract accepts m node ms = Threw PositionError.
Proof.
  intros Hreq Hs He.
  rewrite (babel_extract_unfold _ _ _ _ _ Hreq), Hs. reflexivity.
Qed.

Lemma extract_start_zero_throws_witness :
  Babel.extract acceptsSpan {[ ".js" := ".mjs" ]}
    (ExportAllDeclaration (Some 0) (Some 9)
                          (StringLiteral (Some 0) (Some 8) "./x.js"))
    (MagicString_new "'./x.js';")
  = Threw PositionError.
Proof.
  apply (extract_start_zero_throws _ _ _
           (StringLiteral (Some 0) (Some 8) "./x.js") 8);
    reflexivity.
Defined.

(** A patcher without edits renders the original text. *)
Lemma render_from_no_edits (text : string) (i : Z) :
  0 <= i -> render_from [] i 0 text = text.
Proof.
  revert i. induction text as [|c rest IH]; intros i Hi; [reflexivity|].
  cbn [render_from List.find].
  destruct (Z.ltb_spec i 0); [lia|].
  rewrite IH by lia. reflexivity.
Qed.

Lemma render_fresh (text : string) : render (MagicString_new text) = text.
Proof. apply render_from_no_edits. lia. Qed.

(** An exception of the visitor leaves the walk: the nodes after it are not
    visited. *)
Lemma traverse_throws
    (extract : Node -> MagicString -> Result MagicString)
    (nodes : list Node) (node : Node) :
  In node nodes ->
  (forall ms, exists e, extract node ms = Threw e) ->
  forall ms, exists e, traverse extract nodes ms = Threw e.
Proof.
  intros Hin Hthrow.
  induction nodes as [|n rest IH]; [destruct Hin|].
  intros ms. cbn [traverse].
  destruct (extract n ms) as [ms'|e] eqn:Hn; [|now exists e].
  destruct Hin as [->|Hin].
  - destruct (Hthrow ms) as [e He]. congruence.
  - now apply IH.
Qed.

(** ** The output collection *)

Lemma bundle_get_replace_eq (key : string) (ref : nat) (b : Bundle) :
  bundle_get b key <> None ->
  bundle_get (bundle_replace key ref b) key = Some ref.
Proof.
  induction b as [|[k r] rest IH]; cbn; [congruence|].
  destruct (String.eqb_spec k key) as [->|Hne]; cbn.
  - now rewrite String.eqb_refl.
  - now rewrite (proj2 (String.eqb_neq k key) Hne).
Qed.

Lemma bundle_get_replace_ne (key key' : string) (ref : nat) (b : Bundle) :
  key <> key' ->
  bundle_get (bundle_replace key ref b) key' = bundle_get b key'.
Proof.
  intros Hne. induction b as [|[k r] rest IH]; cbn; [reflexivity|].
  destruct (String.eqb_spec k key) as [->|Hk]; cbn.
  - now rewrite (proj2 (String.eqb_neq key key') Hne).
  - now rewrite IH.
Qed.

Lemma bundle_get_insert_index_eq (n : N) (key : string) (ref : nat)
    (b : Bundle) :
  bundle_get b key = None ->
  bundle_get (bundle_insert_index n key ref b) key = Some ref.
Proof.
  induction b as [|[k r] rest IH]; cbn.
  - now rewrite String.eqb_refl.
  - destruct (String.eqb_spec k key) as [->|Hne]; [discriminate|].
    intros Hrest. destruct (indexBefore n k); cbn.
    + now rewrite String.eqb_refl.
    + rewrite (proj2 (String.eqb_neq k key) Hne). now apply IH.
Qed.

Lemma bundle_get_insert_index_ne (n : N) (key key' : string) (ref : nat)
    (b : Bundle) :
  key <> key' ->
  bundle_get (bundle_insert_index n key ref b) key' = bundle_get b key'.
Proof.
  intros Hne. induction b as [|[k r] rest IH]; cbn.
  - now rewrite (proj2 (String.eqb_neq key key') Hne).
  - destruct (indexBefore n k); cbn.
    + now rewrite (proj2 (String.eqb_neq key key') Hne).
    + now rewrite IH.
Qed.

Lemma bundle_get_app (key key' : string) (ref : nat) (b : Bundle) :
  bundle_get (b ++ [(key, ref)])%list key' =
  match bundle_get b key' with
  | Some r => Some r
  | None => if String.eqb key key' then Some ref else None
  end.
Proof.
  induction b as [|[k r] rest IH]; cbn; [reflexivity|].
  now destruct (String.eqb k key').
Qed.

Lemma bundle_get_set_eq (key : string) (ref : nat) (b : Bundle) :
  bundle_get (bundle_set key ref b) key = Some ref.
Proof.
  unfold bundle_set.
  destruct (bundle_get b key) as [r|] eqn:Hget.
  - apply bundle_get_replace_eq. congruence.
  - destruct (arrayIndex key) as [n|].
    + now apply bundle_get_insert_index_eq.
    + now rewrite bundle_get_app, Hget, String.eqb_refl.
Qed.

Lemma bundle_get_set_ne (key key' : string) (ref : nat) (b : Bundle) :
  key <> key' ->
  bundle_get (bundle_set key ref b) key' = bundle_get b key'.
Proof.
  intros Hne. unfold bundle_set.
  destruct (bundle_get b key) as [r|].
  - now apply bundle_get_replace_ne.
  - destruct (arrayIndex key) as [n|].
    + now apply bundle_get_insert_index_ne.
    + rewrite bundle_get_app, (proj2 (String.eqb_neq key key') Hne).
      now destruct (bundle_get b key').
Qed.

Lemma bundle_get_delete_eq (key : string) (b : Bundle) :
  bundle_get (bundle_delete key b) key = None.
Proof.
  induction b as [|[k r] rest IH]; cbn; [reflexivity|].
  destruct (String.eqb_spec k key) as [->|Hk]; cbn; [assumption|].
  now rewrite (proj2 (String.eqb_neq k key) Hk).
Qed.

Lemma bundle_get_delete_ne (key key' : string) (b : Bundle) :
  key <> key' ->
  bundle_get (bundle_delete key b) key' = bundle_get b key'.
Proof.
  intros Hne. induction b as [|[k r] rest IH]; cbn; [reflexivity|].
  destruct (String.eqb_spec k key) as [->|Hk]; cbn.
  - now rewrite IH, (proj2 (String.eqb_neq key key') Hne).
  - now rewrite IH.
Qed.

(** With unique property names, the entry of a name is what a read of
    that name gives. *)
Lemma bundle_get_In (b : Bundle) (key : string) (ref r : nat) :
  NoDup (List.map fst b) -> bundle_get b key = Some ref -> In (key, r) b ->
  r = ref.
Proof.
  induction b as [|[k r0] rest IH]; cbn; [intros _ _ []|].
  intros Hnd Hget Hin. apply NoDup_cons in Hnd as [Hk Hnd].
  destruct (String.eqb_spec k key) as [->|Hne].
  - destruct Hin as [[= ->]|Hin]; [congruence|].
    exfalso. apply Hk. apply list_elem_of_In.
    change key with (fst (key, r)). now apply in_map.
  - destruct Hin as [[= -> ->]|Hin]; [congruence|]. now apply IH.
Qed.

(** ** The loop body *)

Section PassProperties.

Context {Ast : Type}.
Variable filter : option string -> bool.
Variable parse : string -> option Ast.
Variable visited : Ast -> list Node.
Variable toString : MagicString -> string.
Variable extract :
  gmap string string -> Node -> MagicString -> Result MagicString.
Variable options : IRenameExtensionsOptions.

Abbreviation processEntry :=
  (processEntry filter parse visited toString extract options).
Abbreviation rewriteCode :=
  (rewriteCode parse visited toString extract options).
Abbreviation forEntries :=
  (forEntries filter parse visited toString extract options).
Abbreviation generateBundleWith :=
  (generateBundleWith filter parse visited toString extract options).
Abbreviation renamed := (renamed options).

Lemma processEntry_skip (key : string) (ref : nat) (st : State)
    (file : File) :
  heap st !! ref = Some file -> filter (facadeModuleId file) = false ->
  processEntry key ref st = (st, None).
Proof.
  intros Hfile Hf. unfold processEntry. now rewrite Hfile, Hf.
Qed.

Lemma processEntry_pass (key : string) (ref : nat) (st : State)
    (file : File) (id : string) :
  heap st !! ref = Some file -> filter (facadeModuleId file) = true ->
  facadeModuleId file = Some id ->
  processEntry key ref st =
  match rewriteCode (renamed id file) with
  | (file', Some e) =>
      ({| heap := <[ref := file']> (heap st); bundle := bundle st |}, Some e)
  | (file', None) =>
      ({| heap := <[ref := file']> (heap st);
          bundle :=
            bundle_set (js_or (rewrite key (mappings options)) key) ref
                       (bundle_delete key (bundle st)) |}, None)
  end.
Proof.
  intros Hfile Hf Hid. unfold processEntry.
  rewrite Hfile, Hf, Hid. reflexivity.
Qed.

(** [rewriteCode] writes [code] and [map] only. *)
Lemma rewriteCode_metadata (file : File) :
  facadeModuleId (fst (rewriteCode file)) = facadeModuleId file
  /\ fileName (fst (rewriteCode file)) = fileName file
  /\ imports (fst (rewriteCode file)) = imports file.
Proof.
  unfold rewriteCode.
  destruct (code file) as [text|]; [|now repeat split].
  destruct (negb (String.eqb text "")); [|now repeat split].
  destruct (parse text) as [ast|]; [|now repeat split].
  destruct (traverse _ _ _); [|now repeat split].
  destruct (sourceMaps options); now repeat split.
Qed.

(** The body writes to the file object it was given and to no other. *)
Lemma processEntry_heap_other (key : string) (r ref : nat) (st : State) :
  r <> ref ->
  heap (fst (processEntry key r st)) !! ref = heap st !! ref.
Proof.
  intros Hne. unfold processEntry.
  destruct (heap st !! r) as [f|]; [|reflexivity].
  destruct (negb (filter (facadeModuleId f))); [reflexivity|].
  destruct (facadeModuleId f) as [id|]; [|reflexivity].
  cbv zeta.
  destruct (rewriteCode _) as [f' [e|]]; cbn;
    now apply list_lookup_insert_ne.
Qed.

(** *** Files that fail the filter *)

(** The body writes to no file that fails the filter, and through no
    dangling reference. *)
Lemma processEntry_keeps_filtered (k : string) (r ref : nat) (st : State) :
  (forall f, heap st !! ref = Some f -> filter (facadeModuleId f) = false) ->
  heap (fst (processEntry k r st)) !! ref = heap st !! ref.
Proof.
  intros Hnot.
  destruct (decide (r = ref)) as [->|Hr];
    [|now apply processEntry_heap_other].
  destruct (heap st !! ref) as [f|] eqn:Hfile.
  - now rewrite (processEntry_skip k ref st f Hfile (Hnot f eq_refl)).
  - unfold processEntry. now rewrite Hfile.
Qed.

Lemma forEntries_keeps_filtered (files : Bundle) (ref : nat) (st : State) :
  (forall f, heap st !! ref = Some f -> filter (facadeModuleId f) = false) ->
  heap (fst (forEntries files st)) !! ref = heap st !! ref.
Proof.
  revert st. induction files as [|[k r] rest IH]; intros st Hnot;
    [reflexivity|].
  cbn [forEntries].
  pose proof (processEntry_keeps_filtered k r ref st Hnot) as Hstep.
  destruct (processEntry k r st) as [st' [e|]]; [assumption|].
  cbn [fst] in Hstep. rewrite <- Hstep. apply IH.
  now rewrite Hstep.
Qed.

(** A file that passes the filter after an iteration passed it before. *)
Lemma processEntry_participating_before (k : string) (r ref : nat)
    (st : State) (f' : File) :
  heap (fst (processEntry k r st)) !! ref = Some f' ->
  filter (facadeModuleId f') = true ->
  exists f, heap st !! ref = Some f /\ filter (facadeModuleId f) = true.
Proof.
  intros Hfile' Hf'.
  destruct (heap st !! ref) as [f|] eqn:Hfile.
  - destruct (filter (facadeModuleId f)) eqn:Hf; [now exists f|].
    rewrite processEntry_keeps_filtered in Hfile'; congruence.
  - rewrite processEntry_keeps_filtered in Hfile'; congruence.
Qed.

(** An iteration that neither is the one of [key] nor stores its file
    under [key] leaves the property [key] as it is. *)
Lemma processEntry_keeps_key (k key : string) (r ref : nat) (st : State) :
  bundle_get (bundle st) key = Some ref ->
  (forall f, heap st !! r = Some f -> filter (facadeModuleId f) = true ->
     k <> key /\ js_or (rewrite k (mappings options)) k <> key) ->
  bundle_get (bundle (fst (processEntry k r st))) key = Some ref.
Proof.
  intros Hget Hfree. unfold processEntry.
  destruct (heap st !! r) as [f|]; [|assumption].
  destruct (filter (facadeModuleId f)) eqn:Hf; [|assumption].
  destruct (Hfree f eq_refl Hf) as [Hk Hnew].
  cbn [negb].
  destruct (facadeModuleId f) as [id|]; [|assumption].
  cbv zeta.
  destruct (rewriteCode _) as [f' [e|]]; cbn; [assumption|].
  rewrite bundle_get_set_ne by assumption.
  now rewrite bundle_get_delete_ne.
Qed.

Lemma forEntries_keeps_key (files : Bundle) (key : string) (ref : nat) :
  forall st,
    (forall k r f, In (k, r) files -> heap st !! r = Some f ->
       filter (facadeModuleId f) = true ->
       k <> key /\ js_or (rewrite k (mappings options)) k <> key) ->
    bundle_get (bundle st) key = Some ref ->
    bundle_get (bundle (fst (forEntries files st))) key = Some ref.
Proof.
  induction files as [|[k r] rest IH]; intros st Hfree Hget;
    [assumption|].
  cbn [forEntries].
  assert (bundle_get (bundle (fst (processEntry k r st))) key = Some ref)
    as Hget'.
  { apply processEntry_keeps_key; [assumption|].
    intros f Hfile Hf. apply (Hfree k r f); [now left|assumption..]. }
  pose proof (fun ref => processEntry_participating_before k r ref st)
    as Hbefore.
  destruct (processEntry k r st) as [st' [e|]]; [assumption|].
  apply IH; [|assumption].
  intros k' r' f' Hin Hfile' Hf'.
  destruct (Hbefore r' f' Hfile' Hf') as (f & Hfile & Hf).
  apply (Hfree k' r' f); [now right|assumption..].
Qed.

(** C6 (amended): a file whose facade module id fails the filter is
    skipped by its own iteration, which changes nothing; when the pass is
    over (finished or left by an exception) the file object has all its
    original field values; and the collection still holds it under its
    original key provided no other file that passes the filter has a key
    whose rewriting is that key. *)
Theorem generateBundle_leaves_filtered_file (st : State) (key : string)
    (ref : nat) (file : File) :
  bundle_get (bundle st) key = Some ref ->
  heap st !! ref = Some file ->
  filter (facadeModuleId file) = false ->
  processEntry key ref st = (st, None)
  /\ heap (fst (generateBundleWith st)) !! ref = Some file
  /\ (NoDup (List.map fst (bundle st)) ->
      (forall k r f, In (k, r) (bundle st) -> k <> key ->
         heap st !! r = Some f -> filter (facadeModuleId f) = true ->
         js_or (rewrite k (mappings options)) k <> key) ->
      bundle_get (bundle (fst (generateBundleWith st))) key = Some ref).
Proof.
  intros Hget Hfile Hf.
  split; [now apply (processEntry_skip _ _ _ file)|]. split.
  - unfold generateBundleWith. rewrite forEntries_keeps_filtered.
    + assumption.
    + intros f. rewrite Hfile. now intros [= <-].
  - intros Hnd Hfree. apply forEntries_keeps_key; [|assumption].
    intros k r f Hin Hfile' Hf'.
    assert (k <> key) as Hk.
    { intros ->.
      pose proof (bundle_get_In (bundle st) key ref r Hnd Hget Hin).
      subst r. congruence. }
    split; [assumption|]. now apply (Hfree k r f).
Qed.

(** *** The key of a processed file *)

(** C7 (amended): when the body runs to its end for a file that passes
    the filter, its last act removes the old key and stores the same file
    object under [rewrite(key) || key]: the old key on no-match (and on
    an empty rewritten key), the rewritten key otherwise.  The file is
    then present under that key, and absent under the old key when the
    two differ. *)
Theorem processEntry_reinserts (key : string) (ref : nat) (st : State)
    (file file' : File) (id : string) :
  heap st !! ref = Some file -> filter (facadeModuleId file) = true ->
  facadeModuleId file = Some id ->
  rewriteCode (renamed id file) = (file', None) ->
  let newKey := js_or (rewrite key (mappings options)) key in
  let st' := fst (processEntry key ref st) in
  processEntry key ref st
  = ({| heap := <[ref := file']> (heap st);
        bundle := bundle_set newKey ref (bundle_delete key (bundle st)) |},
     None)
  /\ (rewrite key (mappings options) = None -> newKey = key)
  /\ (forall key', rewrite key (mappings options) = Some key' ->
        key' <> "" -> newKey = key')
  /\ bundle_get (bundle st') newKey = Some ref
  /\ (newKey <> key -> bundle_get (bundle st') key = None).
Proof.
  intros Hfile Hf Hid Hcode newKey st'. subst st'.
  rewrite (processEntry_pass _ _ _ _ _ Hfile Hf Hid), Hcode. cbn.
  split; [reflexivity|]. split; [|split; [|split]].
  - subst newKey. now intros ->.
  - subst newKey. intros key' -> Hne. now apply js_or_Some.
  - apply bundle_get_set_eq.
  - intros Hne. rewrite bundle_get_set_ne by assumption.
    apply bundle_get_delete_eq.
Qed.

(** *** The imports list *)

Lemma processEntry_keeps_imports (key : string) (r ref : nat) (st : State) :
  imports <$> heap (fst (processEntry key r st)) !! ref
  = imports <$> heap st !! ref.
Proof.
  destruct (decide (r = ref)) as [->|Hne];
    [|now rewrite processEntry_heap_other].
  unfold processEntry.
  destruct (heap st !! ref) as [f|] eqn:Hfile;
    [|cbn [fst]; now rewrite Hfile].
  destruct (negb (filter (facadeModuleId f)));
    [cbn [fst]; now rewrite Hfile|].
  destruct (facadeModuleId f) as [id|]; [|cbn [fst]; now rewrite Hfile].
  cbv zeta.
  pose proof (rewriteCode_metadata (renamed id f)) as (_ & _ & Himp).
  apply lookup_lt_Some in Hfile.
  destruct (rewriteCode _) as [f' [e|]]; cbn [fst heap] in *;
    rewrite list_lookup_insert_eq by assumption;
    cbn; now rewrite Himp.
Qed.

(** No statement of the pass assigns to [file.imports]: the array
    [file.imports.map] returns is dropped. *)
Lemma forEntries_keeps_imports (files : Bundle) (ref : nat) (st : State) :
  imports <$> heap (fst (forEntries files st)) !! ref
  = imports <$> heap st !! ref.
Proof.
  revert st. induction files as [|[k r] rest IH]; intros st; [reflexivity|].
  cbn [forEntries].
  pose proof (processEntry_keeps_imports k r ref st) as Hstep.
  destruct (processEntry k r st) as [st' [e|]]; [assumption|].
  now rewrite IH.
Qed.

(** *** Exceptions *)

Lemma rewriteCode_throws (file : File) (text : string) (ast : Ast) :
  code file = Some text -> text <> "" -> parse text = Some ast ->
  (forall ms, exists e,
      traverse (extract (mappings options)) (visited ast) ms = Threw e) ->
  exists e, rewriteCode file = (file, Some e).
Proof.
  intros Hcode Htext Hparse Hthrow. unfold rewriteCode.
  rewrite Hcode, (proj2 (String.eqb_neq text "") Htext), Hparse. cbn.
  destruct (Hthrow (MagicString_new text)) as [e ->]. now exists e.
Qed.

Lemma processEntry_throws (key : string) (ref : nat) (st : State)
    (file : File) (text : string) (ast : Ast) :
  heap st !! ref = Some file -> filter (facadeModuleId file) = true ->
  code file = Some text -> text <> "" -> parse text = Some ast ->
  (forall ms, exists e,
      traverse (extract (mappings options)) (visited ast) ms = Threw e) ->
  exists st' e, processEntry key ref st = (st', Some e).
Proof.
  intros Hfile Hf Hcode Htext Hparse Hthrow.
  destruct (facadeModuleId file) as [id|] eqn:Hid.
  - rewrite (processEntry_pass key ref st file id) by congruence.
    destruct (rewriteCode_throws (renamed id file) text ast)
      as [e He]; try assumption.
    rewrite He. now eexists _, _.
  - unfold processEntry. rewrite Hfile, Hid, Hf. now eexists _, _.
Qed.

(** An exception in the body of one file ends the loop, hence the pass. *)
Lemma forEntries_throws (files : Bundle) (key : string) (ref : nat)
    (file : File) (text : string) (ast : Ast) :
  In (key, ref) files -> filter (facadeModuleId file) = true ->
  code file = Some text -> text <> "" -> parse text = Some ast ->
  (forall ms, exists e,
      traverse (extract (mappings options)) (visited ast) ms = Threw e) ->
  forall st, heap st !! ref = Some file ->
  exists st' e, forEntries files st = (st', Some e).
Proof.
  intros Hin Hf Hcode Htext Hparse Hthrow.
  induction files as [|[k r] rest IH]; [destruct Hin|].
  intros st Hfile. cbn [forEntries].
  assert (forall k', exists st' e, processEntry k' ref st = (st', Some e))
    as Hbody by (intros k'; now apply (processEntry_throws _ _ _ file text ast)).
  pose proof (processEntry_heap_other k r ref st) as Hother.
  destruct (processEntry k r st) as [st1 [e|]] eqn:Hstep;
    [now eexists _, _|].
  destruct (decide (r = ref)) as [->|Hne].
  - destruct (Hbody k) as (st' & e & He). congruence.
  - destruct Hin as [[= -> ->]|Hin]; [congruence|].
    apply IH; [assumption|]. cbn in Hother. now rewrite Hother.
Qed.

End PassProperties.

(** ** The pass in the two realizations *)

(** The five scenarios of the specification, run through the model. *)
Example scenario_file_and_import :
  Babel.generateBundle acceptsSpan filterAll parseExample id render js_to_mjs
    (oneFile "index.js" indexFile)
  = ({| heap :=
          [ {| facadeModuleId := Some "/src/index.mjs";
               fileName := "index.mjs";
               imports := ["util.js"];
               code := Some "import x from './util.mjs';";
               map :=
                 Some (generateMap
                         (appendEdit (Some 14) (Some 25) "'./util.mjs'"
                            (MagicString_new "import x from './util.js';")))
            |} ];
        bundle := [("index.mjs", 0%nat)] |}, None).
Proof. vm_compute. reflexivity. Qed.

Example scenario_require :
  patched (Babel.extract acceptsSpan {[ ".js" := ".mjs" ]})
          "const x = require('./util.js');"
  = Done "const x = require('./util.mjs');"
  /\ patched (Acorn.extract acceptsSpan {[ ".js" := ".mjs" ]})
             "const x = require('./util.js');"
     = Done "const x = require('./util.mjs');".
Proof. vm_compute. split; reflexivity. Qed.

Example scenario_export_all :
  patched (Babel.extract acceptsSpan {[ ".ts" := ".js" ]})
          "export * from './types.ts';"
  = Done "export * from './types.js';"
  /\ patched (Acorn.extract acceptsSpan {[ ".ts" := ".js" ]})
             "export * from './types.ts';"
     = Done "export * from './types.js';".
Proof. vm_compute. split; reflexivity. Qed.

Example scenario_unmapped :
  patched (Babel.extract acceptsSpan {[ ".js" := ".mjs" ]})
          "import('./util.css')"
  = Done "import('./util.css')".
Proof. vm_compute. reflexivity. Qed.

Example scenario_excluded :
  let st' :=
    fst (Babel.generateBundle acceptsSpan filterNoVendor parseExample id
           render js_to_mjs indexAndVendor) in
  heap st' !! 1%nat = Some vendorFile
  /\ bundle_get (bundle st') "vendor.js" = Some 1%nat
  /\ bundle_get (bundle st') "index.mjs" = Some 0%nat
  /\ bundle_get (bundle st') "index.js" = None.
Proof. vm_compute. repeat split; reflexivity. Qed.

(** C2: the rewritten imports are computed and dropped.  For a file that
    passes the filter and imports [util.js], which passes the filter and
    has a mapped extension, the callback of [file.imports.map] returns
    [util.mjs], and after the pass of either realization the imports list
    of the file still reads [util.js]. *)
Theorem generateBundle_drops_rewritten_imports (accepts : SpanCheck) :
  let st := oneFile "index.js" indexFile in
  filterAll (facadeModuleId indexFile) = true
  /\ List.map (rewriteImport filterAll js_to_mjs) (imports indexFile)
     = ["util.mjs"]
  /\ imports <$>
       heap (fst (Babel.generateBundle accepts filterAll parseExample id
                    render js_to_mjs st)) !! 0%nat
     = Some ["util.js"]
  /\ imports <$>
       heap (fst (Acorn.generateBundle accepts filterAll parseExample id
                    render js_to_mjs st)) !! 0%nat
     = Some ["util.js"].
Proof.
  intros st. split; [reflexivity|]. split; [vm_compute; reflexivity|].
  unfold Babel.generateBundle, Acorn.generateBundle, generateBundleWith.
  now rewrite !forEntries_keeps_imports.
Qed.

(** In either realization and on every input the pass leaves every imports
    list as it found it. *)
Lemma generateBundle_keeps_imports {Ast : Type} (accepts : SpanCheck)
    (filter : option string -> bool) (parse : string -> option Ast)
    (visited : Ast -> list Node) (toString : MagicString -> string)
    (options : IRenameExtensionsOptions) (st : State) (ref : nat) :
  imports <$>
    heap (fst (Babel.generateBundle accepts filter parse visited toString
                 options st)) !! ref
  = imports <$> heap st !! ref
  /\ imports <$>
       heap (fst (Acorn.generateBundle accepts filter parse visited toString
                    options st)) !! ref
     = imports <$> heap st !! ref.
Proof. split; apply forEntries_keeps_imports. Qed.

(** C5, as stated, fails in the acorn-backed realization: its visitor has
    no guard, and a reference without positions whose extension is not
    mapped is passed over without any error, by the visitor and by the
    pass. *)
Lemma acorn_extract_ignores_missing_position :
  let l := StringLiteral None None "./lost.css" in
  let node :=
    CallExpression (Some 0) (Some 21)
                   (Identifier (Some 0) (Some 7) "require") [l] in
  let ms := MagicString_new "require('./lost.css');" in
  Acorn.req node = Some l
  /\ start l = None
  /\ Acorn.extract acceptsSpan {[ ".js" := ".mjs" ]} node ms = Done ms
  /\ snd (Acorn.generateBundle acceptsSpan filterAll parseExample id render
            js_to_mjs (oneFile "lost.js" lostCssFile)) = None
  /\ Babel.extract acceptsSpan {[ ".js" := ".mjs" ]} node ms
     = Threw PositionError.
Proof. vm_compute. repeat split; reflexivity. Qed.

(** C5 (amended): in the Babel-backed realization a reference without a
    start or an end makes the visitor raise the position error, and a pass
    over a collection with a participating file whose code holds such a
    reference ends with an exception; the acorn-backed visitor never
    raises the position error. *)
Theorem babel_missing_position_aborts (accepts : SpanCheck) :
  (forall (m : gmap string string) (node r : Node) (ms : MagicString),
      Babel.req node = Some r -> start r = None \/ end_ r = None ->
      Babel.extract accepts m node ms = Threw PositionError)
  /\ (forall (Ast : Type) (filter : option string -> bool)
        (parse : string -> option Ast) (visited : Ast -> list Node)
        (toString : MagicString -> string)
        (options : IRenameExtensionsOptions) (st : State) (key : string)
        (ref : nat) (file : File) (text : string) (ast : Ast)
        (node r : Node),
        In (key, ref) (bundle st) -> heap st !! ref = Some file ->
        filter (facadeModuleId file) = true ->
        code file = Some text -> text <> "" -> parse text = Some ast ->
        In node (visited ast) -> Babel.req node = Some r ->
        start r = None \/ end_ r = None ->
        exists st' e,
          Babel.generateBundle accepts filter parse visited toString options
                               st
          = (st', Some e))
  /\ (forall (m : gmap string string) (node : Node) (ms : MagicString),
        Acorn.extract accepts m node ms <> Threw PositionError).
Proof.
  assert (forall m node r ms,
             Babel.req node = Some r -> start r = None \/ end_ r = None ->
             Babel.extract accepts m node ms = Threw PositionError) as Hguard.
  { intros m node r ms Hreq Hpos.
    rewrite (babel_extract_unfold _ _ _ _ _ Hreq).
    destruct Hpos as [-> | ->]; [reflexivity|].
    now rewrite orb_true_r. }
  split; [exact Hguard|]. split; [|apply acorn_extract_no_PositionError].
  intros Ast filter parse visited toString options st key ref file text ast
         node r Hin Hfile Hf Hcode Htext Hparse Hnode Hreq Hpos.
  apply (forEntries_throws filter parse visited toString
           (Babel.extract accepts) options (bundle st) key ref file text ast);
    try assumption.
  apply (traverse_throws _ _ node); [assumption|].
  intros ms. exists PositionError. now apply (Hguard _ _ r).
Qed.

Lemma babel_missing_position_aborts_witness :
  Babel.extract acceptsSpan {[ ".js" := ".mjs" ]}
    (ExportAllDeclaration (Some 0) (Some 26)
                          (StringLiteral None None "./lost.js"))
    (MagicString_new "export * from './lost.js';")
  = Threw PositionError
  /\ exists st' e,
       Babel.generateBundle acceptsSpan filterAll parseExample id render
           js_to_mjs (oneFile "lost.js" lostFile) = (st', Some e).
Proof.
  destruct (babel_missing_position_aborts acceptsSpan)
    as (Hguard & Hpass & _).
  split.
  - apply (Hguard _ _ (StringLiteral None None "./lost.js"));
      [reflexivity | left; reflexivity].
  - apply (Hpass _ filterAll parseExample id render js_to_mjs
             (oneFile "lost.js" lostFile) "lost.js" 0%nat lostFile
             "export * from './lost.js';"
             [ExportAllDeclaration (Some 0) (Some 26)
                                   (StringLiteral None None "./lost.js")]
             (ExportAllDeclaration (Some 0) (Some 26)
                                   (StringLiteral None None "./lost.js"))
             (StringLiteral None None "./lost.js"));
      [left; reflexivity | reflexivity | reflexivity | reflexivity
      | discriminate | reflexivity | left; reflexivity | reflexivity
      | left; reflexivity].
Defined.

(** C6, as stated, fails on a key collision: the excluded file emitted as
    [a.mjs] is not touched, but the included file [a.js] is stored under
    [a.mjs] and takes its place in the collection. *)
Lemma generateBundle_collision_evicts_filtered_file :
  let st' :=
    fst (Babel.generateBundle acceptsSpan filterNoVendor parseExample id
           render js_to_mjs collidingBundle) in
  bundle_get (bundle collidingBundle) "a.mjs" = Some 1%nat
  /\ heap collidingBundle !! 1%nat = Some vendorFile
  /\ filterNoVendor (facadeModuleId vendorFile) = false
  /\ heap st' !! 1%nat = Some vendorFile
  /\ bundle st' = [("a.mjs", 0%nat)]
  /\ bundle_get (bundle st') "a.mjs" <> Some 1%nat.
Proof. vm_compute. repeat split; congruence. Qed.

Lemma generateBundle_leaves_filtered_file_witness :
  let st' :=
    fst (Babel.generateBundle acceptsSpan filterNoVendor parseExample id
           render js_to_mjs indexAndVendor) in
  processEntry filterNoVendor parseExample id render
    (Babel.extract acceptsSpan) js_to_mjs "vendor.js" 1%nat indexAndVendor
  = (indexAndVendor, None)
  /\ heap st' !! 1%nat = Some vendorFile
  /\ bundle_get (bundle st') "vendor.js" = Some 1%nat.
Proof.
  destruct (generateBundle_leaves_filtered_file filterNoVendor parseExample
              id render (Babel.extract acceptsSpan) js_to_mjs indexAndVendor
              "vendor.js" 1%nat vendorFile eq_refl eq_refl eq_refl)
    as (Hskip & Hheap & Hkey).
  split; [exact Hskip|]. split; [exact Hheap|].
  apply Hkey.
  - apply (bool_decide_unpack _). vm_compute. exact I.
  - intros k r f [[= <- <-]|[[= <- <-]|[]]] Hk _ _;
      [vm_compute; congruence|].
    now destruct Hk.
Defined.

(** Two excluded files whose keys collide under the mapping: no iteration
    touches the collection, and both stay where they are. *)
Example generateBundle_excluded_collision_is_harmless :
  let st :=
    {| heap := [vendorFile; vendorFile];
       bundle := [("a.js", 0%nat); ("a.mjs", 1%nat)] |} in
  js_or (rewrite "a.js" (mappings js_to_mjs)) "a.js" = "a.mjs"
  /\ Babel.generateBundle acceptsSpan filterNoVendor parseExample id render
       js_to_mjs st = (st, None).
Proof. vm_compute. split; reflexivity. Qed.

(** C7, as stated, fails: under a mapping that sends [.js] to [.js] the key
    [a.js] has a mapped extension, and after the file is processed it is
    still present under its old key. *)
Lemma processEntry_same_key_stays :
  let st := oneFile "a.js" plainFile in
  mappings js_to_js !! Path.extname "a.js" = Some ".js"
  /\ rewrite "a.js" (mappings js_to_js) = Some "a.js"
  /\ bundle_get
       (bundle (fst (Babel.generateBundle acceptsSpan filterAll parseExample
                       id render
                       js_to_js st))) "a.js" = Some 0%nat
  /\ bundle_get
       (bundle (fst (Acorn.generateBundle acceptsSpan filterAll parseExample
                       id render
                       js_to_js st))) "a.js" = Some 0%nat.
Proof. vm_compute. repeat split; reflexivity. Qed.

Lemma processEntry_reinserts_witness :
  let st' :=
    fst (processEntry filterAll parseExample id render
           (Babel.extract acceptsSpan) js_to_mjs "a.js" 0%nat
           (oneFile "a.js" plainFile)) in
  bundle_get (bundle st') "a.mjs" = Some 0%nat
  /\ bundle_get (bundle st') "a.js" = None.
Proof.
  destruct (processEntry_reinserts filterAll parseExample id render
              (Babel.extract acceptsSpan) js_to_mjs "a.js" 0%nat
              (oneFile "a.js" plainFile) plainFile
              (renamed js_to_mjs "/src/a.js" plainFile) "/src/a.js")
    as (_ & _ & _ & Hin & Hout); try reflexivity.
  split; [exact Hin | apply Hout; vm_compute; discriminate].
Defined.

(** * Further properties *)

(** ** [rewrite] on paths that end with a documented extension *)

Lemma list_ascii_of_string_append (s t : string) :
  list_ascii_of_string (s +:+ t)
  = (list_ascii_of_string s ++ list_ascii_of_string t)%list.
Proof.
  induction s as [|a s IH]; [reflexivity|].
  rewrite append_cons. cbn [list_ascii_of_string]. now rewrite IH.
Qed.

Lemma substring_suffix (q e : string) :
  substring (String.length q) (String.length e) (q +:+ e) = e.
Proof.
  induction q as [|a q IH].
  - change ("" +:+ e) with e. cbn [String.length].
    induction e as [|b e IHe]; [reflexivity|].
    cbn [String.length substring]. now rewrite IHe.
  - rewrite append_cons. cbn [String.length substring]. exact IH.
Qed.

(** The scan breaks on separators only. *)
Lemma step_no_break (i : Z) (code : ascii) (st : Path.scan) :
  Ascii.eqb code "/" = false -> snd (Path.step i code st) = false.
Proof.
  intros H. unfold Path.step, Path.CHAR_FORWARD_SLASH. rewrite H.
  step_cases; reflexivity.
Qed.

Lemma loop_app_no_break (l1 l2 : list ascii) :
  Forall (fun code => Ascii.eqb code "/" = false) l1 ->
  forall i st,
    Path.loop (l1 ++ l2)%list i st
    = Path.loop l2 (i - Z.of_nat (List.length l1)) (Path.loop l1 i st).
Proof.
  induction 1 as [|code l1 Hcode Hl1 IH]; intros i st.
  - cbn. f_equal. lia.
  - cbn [app Path.loop List.length].
    pose proof (step_no_break i code st Hcode) as Hbrk.
    destruct (Path.step i code st) as [st' brk]. cbn [snd] in Hbrk. subst brk.
    rewrite IH. f_equal. lia.
Qed.

Lemma step_init_char (i : Z) (c : ascii) :
  extensionChar c = true -> Path.step i c Path.init = (markedEnd (i + 1), false).
Proof.
  unfold extensionChar. intros [Hdot Hsep]%andb_prop.
  apply negb_true_iff in Hdot, Hsep.
  unfold Path.step, Path.CHAR_FORWARD_SLASH, Path.CHAR_DOT.
  rewrite Hsep, Hdot. reflexivity.
Qed.

Lemma step_markedEnd_char (i e : Z) (c : ascii) :
  extensionChar c = true -> e <> -1 ->
  Path.step i c (markedEnd e) = (markedEnd e, false).
Proof.
  unfold extensionChar. intros [Hdot Hsep]%andb_prop He.
  apply negb_true_iff in Hdot, Hsep.
  unfold Path.step, Path.CHAR_FORWARD_SLASH, Path.CHAR_DOT.
  rewrite Hsep, Hdot. cbn [markedEnd Path.end_].
  rewrite (proj2 (Z.eqb_neq e (-1)) He). reflexivity.
Qed.

Lemma step_markedEnd_dot (i e : Z) :
  e <> -1 -> Path.step i "." (markedEnd e) = (markedDot i e, false).
Proof.
  intros He. unfold Path.step. cbn [Ascii.eqb Path.CHAR_FORWARD_SLASH
    Path.CHAR_DOT markedEnd Path.end_ Path.matchedSlash].
  cbn. rewrite (proj2 (Z.eqb_neq e (-1)) He). reflexivity.
Qed.

Lemma loop_markedEnd_chars (l : list ascii) (e : Z) :
  Forall (fun c => extensionChar c = true) l -> e <> -1 ->
  forall i, Path.loop l i (markedEnd e) = markedEnd e.
Proof.
  intros Hl He. induction Hl as [|c l Hc Hl IH]; intros i; [reflexivity|].
  cbn [Path.loop]. rewrite step_markedEnd_char by assumption. apply IH.
Qed.

Lemma extensionChar_no_separator (c : ascii) :
  extensionChar c = true -> Ascii.eqb c "/" = false.
Proof.
  unfold extensionChar. intros [_ Hsep]%andb_prop.
  now apply negb_true_iff in Hsep.
Qed.

(** The scan of an extension, read from its last character to its dot. *)
Lemma loop_extension (l : list ascii) (i : Z) :
  l <> [] -> Forall (fun c => extensionChar c = true) l -> 0 <= i ->
  forall rest,
    Path.loop (l ++ "."%char :: rest)%list i Path.init
    = Path.loop rest (i - Z.of_nat (List.length l) - 1)
                (markedDot (i - Z.of_nat (List.length l)) (i + 1)).
Proof.
  intros Hne Hl Hi rest. destruct l as [|c l]; [congruence|].
  apply Forall_cons in Hl as [Hc Hl].
  cbn [app Path.loop]. rewrite step_init_char by assumption.
  rewrite loop_app_no_break
    by (eapply Forall_impl; [exact Hl | apply extensionChar_no_separator]).
  rewrite loop_markedEnd_chars by (assumption || lia).
  cbn [Path.loop]. rewrite step_markedEnd_dot by lia.
  cbn [List.length]. f_equal; [lia | f_equal; lia].
Qed.

Lemma step_keeps_dot (i : Z) (code : ascii) (st : Path.scan) :
  Path.startDot st <> -1 ->
  Path.startDot (fst (Path.step i code st)) = Path.startDot st.
Proof. intros H. step_cases; lia. Qed.

Lemma loop_keeps_dot (rev_codes : list ascii) :
  forall i st,
    Path.startDot st <> -1 ->
    Path.startDot (Path.loop rev_codes i st) = Path.startDot st.
Proof.
  induction rev_codes as [|code rest IH]; intros i st H; [reflexivity|].
  cbn [Path.loop].
  pose proof (step_keeps_dot i code st H) as Hstep.
  destruct (Path.step i code st) as [st' brk]. cbn [fst] in Hstep.
  destruct brk; [assumption|]. rewrite IH; lia.
Qed.

Lemma step_keeps_preDot (i : Z) (code : ascii) (st : Path.scan) :
  Path.preDotState st <> 0 ->
  Path.preDotState (fst (Path.step i code st)) <> 0.
Proof. intros H. step_cases; lia. Qed.

Lemma loop_keeps_preDot (rev_codes : list ascii) :
  forall i st,
    Path.preDotState st <> 0 ->
    Path.preDotState (Path.loop rev_codes i st) <> 0.
Proof.
  induction rev_codes as [|code rest IH]; intros i st H; [assumption|].
  cbn [Path.loop].
  pose proof (step_keeps_preDot i code st H) as Hstep.
  destruct (Path.step i code st) as [st' brk]. cbn [fst] in Hstep.
  destruct brk; [assumption|]. now apply IH.
Qed.

(** A character of the stem right before the dot makes the dot the start
    of an extension. *)
Lemma step_markedDot_stem (i d e : Z) (code : ascii) :
  Ascii.eqb code "/" = false -> d <> -1 -> e <> -1 ->
  snd (Path.step i code (markedDot d e)) = false
  /\ Path.startDot (fst (Path.step i code (markedDot d e))) = d
  /\ Path.end_ (fst (Path.step i code (markedDot d e))) = e
  /\ Path.preDotState (fst (Path.step i code (markedDot d e))) <> 0.
Proof.
  intros Hsep Hd He. unfold Path.step, Path.CHAR_FORWARD_SLASH.
  rewrite Hsep. cbn [markedDot Path.end_ Path.startDot Path.preDotState
                     Path.startPart Path.matchedSlash].
  rewrite (proj2 (Z.eqb_neq e (-1)) He).
  destruct (Ascii.eqb code Path.CHAR_DOT);
    cbn [markedDot Path.end_ Path.startDot Path.preDotState
         Path.startPart Path.matchedSlash];
    rewrite (proj2 (Z.eqb_neq d (-1)) Hd); cbn; repeat split; lia.
Qed.

(** The extension of a path made of a stem that does not end in a
    separator and of a documented extension is that extension. *)
Lemma extname_stem_extension (q e : string) :
  q <> "" -> Path.trailingSeparator q = false -> isExtension e = true ->
  Path.extname (q +:+ e) = e.
Proof.
  intros Hq Hsep He.
  destruct e as [|c [|d w]]; try discriminate.
  cbn [isExtension] in He. apply andb_prop in He as [Hc Hw].
  apply Ascii.eqb_eq in Hc. subst c.
  assert (Forall (fun c => extensionChar c = true)
                 (rev (d :: list_ascii_of_string w))) as Hchars.
  { apply Forall_rev, Forall_forall. intros x Hx.
    rewrite forallb_forall in Hw. apply Hw. now apply list_elem_of_In. }
  set (e := String "." (String d w)) in *.
  set (n := Z.of_nat (String.length (q +:+ e))).
  assert (Z.of_nat (String.length e)
          = Z.of_nat (List.length (rev (d :: list_ascii_of_string w))) + 1)
    as Hlen.
  { rewrite length_rev. cbn [List.length].
    rewrite length_list_ascii_of_string. subst e. cbn [String.length]. lia. }
  assert (n = Z.of_nat (String.length q) + Z.of_nat (String.length e))
    as Hn by (subst n; rewrite length_append; lia).
  assert (0 < String.length q)%nat as Hqlen
    by (destruct q; [congruence | cbn; lia]).
  unfold Path.trailingSeparator in Hsep.
  pose proof (length_rev (list_ascii_of_string q)) as Hrevlen.
  rewrite length_list_ascii_of_string in Hrevlen.
  destruct (rev (list_ascii_of_string q)) as [|code stem] eqn:Hrev;
    [cbn in Hrevlen; lia|].
  assert (Path.scan_of (q +:+ e)
          = Path.loop (code :: stem) (Z.of_nat (String.length q) - 1)
              (markedDot (Z.of_nat (String.length q)) n)) as Hscan.
  { unfold Path.scan_of. fold n.
    rewrite list_ascii_of_string_append, rev_app_distr, Hrev.
    subst e. cbn [list_ascii_of_string].
    change (rev ("."%char :: d :: list_ascii_of_string w))
      with (rev (d :: list_ascii_of_string w) ++ ["."%char])%list.
    rewrite <- app_assoc. cbn [app].
    rewrite loop_extension;
      [| intros Hnil; apply (f_equal (@List.length ascii)) in Hnil;
         rewrite length_rev in Hnil; discriminate
       | assumption | lia].
    f_equal; [lia | f_equal; lia]. }
  cbn [Path.loop] in Hscan.
  destruct (step_markedDot_stem (Z.of_nat (String.length q) - 1)
              (Z.of_nat (String.length q)) n code Hsep ltac:(lia) ltac:(lia))
    as (Hbrk & Hdot & Hend & Hpre).
  destruct (Path.step _ code (markedDot _ n)) as [st1 brk].
  cbn [fst snd] in Hbrk, Hdot, Hend, Hpre. subst brk.
  pose proof (loop_keeps_dot stem (Z.of_nat (String.length q) - 1 - 1) st1
                ltac:(lia)) as Hdot'.
  pose proof (loop_end stem (Z.of_nat (String.length q) - 1 - 1) st1
                ltac:(lia)) as Hend'.
  pose proof (loop_keeps_preDot stem (Z.of_nat (String.length q) - 1 - 1) st1
                Hpre) as Hpre'.
  rewrite <- Hscan in Hdot', Hend', Hpre'.
  unfold Path.extname. fold (Path.scan_of (q +:+ e)).
  set (st := Path.scan_of (q +:+ e)) in *.
  rewrite Hdot', Hend', Hdot, Hend.
  destruct (Z.eqb_spec (Z.of_nat (String.length q)) (-1)); [lia|].
  destruct (Z.eqb_spec n (-1)); [lia|].
  destruct (Z.eqb_spec (Path.preDotState st) 0); [congruence|].
  destruct (Z.eqb_spec (Z.of_nat (String.length q)) (n - 1));
    [subst e; cbn [String.length] in Hn; lia|].
  rewrite andb_false_r. cbn [orb andb].
  rewrite slice_in_range by (fold n; lia).
  replace (Z.to_nat (Z.of_nat (String.length q))) with (String.length q)
    by lia.
  replace (Z.to_nat (n - Z.of_nat (String.length q)))
    with (String.length e) by lia.
  apply substring_suffix.
Qed.

Lemma isExtension_nonempty (e : string) : isExtension e = true -> e <> "".
Proof. destruct e; [discriminate | discriminate]. Qed.

(** [rewrite] on such a path, without reference to [path.extname]. *)
Lemma rewrite_stem_extension (q e : string) (m : gmap string string) :
  q <> "" -> Path.trailingSeparator q = false -> isExtension e = true ->
  rewrite (q +:+ e) m = (fun mapped => q +:+ mapped) <$> m !! e.
Proof.
  intros Hq Hsep He.
  rewrite rewrite_unfold, (extname_stem_extension q e Hq Hsep He).
  destruct (m !! e) as [mapped|]; [|reflexivity]. cbn.
  now rewrite slice_drop_suffix by (now apply isExtension_nonempty).
Qed.

(** X1: on a path made of a stem (non-empty, not ending in a separator) and
    a documented extension, [rewrite] replaces the extension when it is a
    key of the mapping, and the fallback of the callers keeps the result;
    it returns no-match when it is not a key. *)
Theorem rewrite_documented_extension (q e : string) (m : gmap string string) :
  q <> "" -> Path.trailingSeparator q = false -> isExtension e = true ->
  (forall mapped, m !! e = Some mapped ->
     rewrite (q +:+ e) m = Some (q +:+ mapped)
     /\ js_or (rewrite (q +:+ e) m) (q +:+ e) = q +:+ mapped)
  /\ (m !! e = None -> rewrite (q +:+ e) m = None).
Proof.
  intros Hq Hsep He. rewrite (rewrite_stem_extension q e m Hq Hsep He).
  split.
  - intros mapped ->. cbn. split; [reflexivity|].
    destruct q; [congruence | reflexivity].
  - now intros ->.
Qed.

Lemma rewrite_documented_extension_witness :
  (rewrite ("src/index" +:+ ".js") {[ ".js" := ".mjs" ]}
   = Some ("src/index" +:+ ".mjs")
   /\ js_or (rewrite ("src/index" +:+ ".js") {[ ".js" := ".mjs" ]})
            ("src/index" +:+ ".js") = "src/index" +:+ ".mjs")
  /\ rewrite ("src/index" +:+ ".js") {[ ".ts" := ".js" ]} = None.
Proof.
  split.
  - apply (proj1 (rewrite_documented_extension "src/index" ".js"
                    {[ ".js" := ".mjs" ]} ltac:(discriminate) eq_refl eq_refl)).
    vm_compute; reflexivity.
  - apply (proj2 (rewrite_documented_extension "src/index" ".js"
                    {[ ".ts" := ".js" ]} ltac:(discriminate) eq_refl eq_refl)).
    vm_compute; reflexivity.
Defined.

(** X2: a rewrite is undone by the rewrite with the inverse entry. *)
Theorem rewrite_round_trip (q e e' : string) (m m' : gmap string string) :
  q <> "" -> Path.trailingSeparator q = false ->
  isExtension e = true -> isExtension e' = true ->
  m !! e = Some e' -> m' !! e' = Some e ->
  exists r, rewrite (q +:+ e) m = Some r /\ rewrite r m' = Some (q +:+ e).
Proof.
  intros Hq Hsep He He' Hm Hm'. exists (q +:+ e').
  rewrite !rewrite_stem_extension by assumption.
  now rewrite Hm, Hm'.
Qed.

Lemma rewrite_round_trip_witness :
  exists r, rewrite ("lib/util" +:+ ".ts") {[ ".ts" := ".js" ]} = Some r
            /\ rewrite r {[ ".js" := ".ts" ]} = Some ("lib/util" +:+ ".ts").
Proof.
  apply (rewrite_round_trip "lib/util" ".ts" ".js");
    [discriminate | reflexivity | reflexivity | reflexivity
    | vm_compute; reflexivity | vm_compute; reflexivity].
Defined.

(** X3: when the mapped extension is a documented extension and is not
    itself a key of the mapping, a second rewrite with the same mapping
    finds no match, and the fallback of the callers keeps the path: the
    metadata rewrite is idempotent. *)
Theorem rewrite_twice (q e e' : string) (m : gmap string string) :
  q <> "" -> Path.trailingSeparator q = false ->
  isExtension e = true -> isExtension e' = true ->
  m !! e = Some e' -> m !! e' = None ->
  let once := js_or (rewrite (q +:+ e) m) (q +:+ e) in
  once = q +:+ e'
  /\ rewrite once m = None
  /\ js_or (rewrite once m) once = once.
Proof.
  intros Hq Hsep He He' Hm Hnone once.
  assert (once = q +:+ e') as ->.
  { subst once. rewrite rewrite_stem_extension, Hm by assumption. cbn.
    destruct q; [congruence | reflexivity]. }
  rewrite rewrite_stem_extension, Hnone by assumption.
  repeat split.
Qed.

Lemma rewrite_twice_witness :
  let once :=
    js_or (rewrite ("index" +:+ ".js") {[ ".js" := ".mjs" ]})
          ("index" +:+ ".js") in
  once = "index" +:+ ".mjs"
  /\ rewrite once {[ ".js" := ".mjs" ]} = None
  /\ js_or (rewrite once {[ ".js" := ".mjs" ]}) once = once.
Proof.
  apply (rewrite_twice "index" ".js" ".mjs");
    [discriminate | reflexivity | reflexivity | reflexivity
    | vm_compute; reflexivity | vm_compute; reflexivity].
Defined.

Lemma fallback_keeps_match_witness :
  js_or (rewrite "a.b/c.js" {[ ".js" := "" ]}) "a.b/c.js" = "a.b/c".
Proof.
  apply fallback_keeps_match; vm_compute; [discriminate | reflexivity].
Defined.

(** ** The specifier extractors *)

(** The reference each visitor extracts, by the shape of the visited
    node. *)
Lemma babel_req_cases (node : Node) :
  Babel.req node =
  match node with
  | ImportDeclaration _ _ src => Some src
  | CallExpression _ _ _ (StringLiteral ls le v :: _) =>
      Some (StringLiteral ls le v)
  | ExportNamedDeclaration _ _ (Some (StringLiteral ls le v)) =>
      Some (StringLiteral ls le v)
  | ExportAllDeclaration _ _ (StringLiteral ls le v) =>
      Some (StringLiteral ls le v)
  | _ => None
  end.
Proof.
  destruct node as [| | | | | |s e c args|s e src|s e [src|]|s e src];
    try reflexivity.
  - unfold Babel.req. cbn [Babel.type String.eqb Ascii.eqb Bool.eqb orb].
    cbn. apply babel_getRequireSource_call.
  - destruct src; reflexivity.
  - destruct src; reflexivity.
Qed.

Lemma acorn_req_cases (node : Node) :
  Acorn.req node =
  match node with
  | ImportDeclaration _ _ (StringLiteral ls le v) =>
      Some (StringLiteral ls le v)
  | ImportDeclaration _ _ (NumericLiteral ls le v) =>
      Some (NumericLiteral ls le v)
  | CallExpression _ _ (Identifier _ _ x) (StringLiteral ls le v :: _) =>
      if String.eqb x "require" then Some (StringLiteral ls le v) else None
  | CallExpression _ _ (Identifier _ _ x) (NumericLiteral ls le v :: _) =>
      if String.eqb x "require" then Some (NumericLiteral ls le v) else None
  | ExportNamedDeclaration _ _ (Some (StringLiteral ls le v)) =>
      Some (StringLiteral ls le v)
  | ExportNamedDeclaration _ _ (Some (NumericLiteral ls le v)) =>
      Some (NumericLiteral ls le v)
  | ExportAllDeclaration _ _ (StringLiteral ls le v) =>
      Some (StringLiteral ls le v)
  | ExportAllDeclaration _ _ (NumericLiteral ls le v) =>
      Some (NumericLiteral ls le v)
  | _ => None
  end.
Proof.
  destruct node as [| | | | | |s e c args|s e src|s e [src|]|s e src];
    try reflexivity.
  - unfold Acorn.req. rewrite acorn_getRequireSource_call.
    destruct c; try reflexivity.
    destruct args as [|a rest]; [reflexivity|].
    destruct a; try reflexivity; now destruct (String.eqb _ _).
  - destruct src; reflexivity.
  - destruct src; reflexivity.
  - destruct src; reflexivity.
Qed.

(** X5: a string literal the acorn-backed visitor extracts from a node is
    also what the Babel-backed visitor extracts from it; on import and
    export declarations the converse holds, so that the two realizations
    pick the same specifier there. *)
Theorem req_declarations_agree (node l : Node) :
  (Acorn.req node = Some l -> Babel.type l = "StringLiteral" ->
   Babel.req node = Some l)
  /\ (Babel.type node <> "CallExpression" -> Babel.req node = Some l ->
      Babel.type l = "StringLiteral" -> Acorn.req node = Some l).
Proof.
  rewrite babel_req_cases, acorn_req_cases. split.
  - destruct node as [| | | | | |s e c args|s e src|s e [src|]|s e src];
      try discriminate.
    + destruct c; try discriminate.
      destruct args as [|a rest]; [discriminate|].
      destruct a; try discriminate; destruct (String.eqb _ _);
        try discriminate; [trivial|].
      intros [= <-]. discriminate.
    + destruct src; try discriminate; [trivial|]. intros [= <-]. discriminate.
    + destruct src; try discriminate; [trivial|]. intros [= <-]. discriminate.
    + destruct src; try discriminate; [trivial|]. intros [= <-]. discriminate.
  - destruct node as [| | | | | |s e c args|s e src|s e [src|]|s e src];
      try discriminate.
    + intros Hcall. now destruct Hcall.
    + intros _ [= <-]. destruct src; try discriminate. trivial.
    + destruct src; try discriminate. trivial.
    + destruct src; try discriminate. trivial.
Qed.

Lemma req_declarations_agree_witness :
  let l := StringLiteral (Some 14) (Some 26) "./types.ts" in
  let node := ExportAllDeclaration (Some 0) (Some 27) l in
  Babel.req node = Some l /\ Acorn.req node = Some l.
Proof.
  intros l node. destruct (req_declarations_agree node l) as [Hab Hba].
  assert (Acorn.req node = Some l) as Ha
    by (apply Hba; [discriminate | reflexivity | reflexivity]).
  split; [apply Hab; [exact Ha | reflexivity] | exact Ha].
Defined.

(** X6: a node without a literal specifier is left alone by both visitors:
    an export declaration without [from] clause, and a call without
    argument or whose first argument is not a literal (a template literal,
    an identifier, ...). *)
Theorem extract_ignores_non_literal (accepts : SpanCheck)
    (m : gmap string string) (ms : MagicString) (s e : option Z) :
  (Babel.extract accepts m (ExportNamedDeclaration s e None) ms = Done ms
   /\ Acorn.extract accepts m (ExportNamedDeclaration s e None) ms = Done ms)
  /\ (forall callee args,
        Acorn.type <$> head args <> Some "Literal" ->
        Babel.extract accepts m (CallExpression s e callee args) ms = Done ms
        /\ Acorn.extract accepts m (CallExpression s e callee args) ms
           = Done ms).
Proof.
  split; [split; reflexivity|].
  intros callee args Hhead.
  unfold Babel.extract, Acorn.extract.
  rewrite babel_req_cases, acorn_req_cases.
  destruct args as [|a rest]; [now destruct callee|].
  destruct a; try (now destruct callee); now destruct Hhead.
Qed.

Lemma extract_ignores_non_literal_witness :
  let ms := MagicString_new "load(`./x.js`)" in
  let node :=
    CallExpression (Some 0) (Some 14) (Identifier (Some 0) (Some 4) "load")
                   [TemplateLiteral (Some 5) (Some 13)] in
  Babel.extract acceptsSpan {[ ".js" := ".mjs" ]} node ms = Done ms
  /\ Acorn.extract acceptsSpan {[ ".js" := ".mjs" ]} node ms = Done ms.
Proof.
  intros ms node.
  apply (proj2 (extract_ignores_non_literal acceptsSpan {[ ".js" := ".mjs" ]}
                  ms (Some 0) (Some 14))).
  discriminate.
Defined.

(** X7: on [require(<literal that is not a string>)] the acorn-backed
    visitor takes the literal for a specifier and hands its value to
    [rewrite], where [path.extname] rejects it: the visitor throws.  The
    Babel-backed visitor leaves such a call alone. *)
Theorem acorn_extract_throws_on_non_string_literal (accepts : SpanCheck)
    (m : gmap string string) (ms : MagicString)
    (s e cs ce ls le : option Z) (v : Z) (rest : list Node) :
  let node :=
    CallExpression s e (Identifier cs ce "require")
                   (NumericLiteral ls le v :: rest) in
  Acorn.extract accepts m node ms = Threw TypeError
  /\ Babel.extract accepts m node ms = Done ms.
Proof. split; reflexivity. Qed.

(** X8: what makes a visitor throw.  The Babel-backed visitor throws the
    position error exactly on a reference with a missing or zero offset,
    and the type error exactly on a reference with offsets whose value is
    not a string; the acorn-backed visitor throws the type error exactly
    on a reference whose value is not a string.  The one other exception
    is the patcher's own, exactly when the rule gives a non-empty
    replacement for the reference and the patcher rejects its span. *)
Theorem extract_throws_iff (accepts : SpanCheck) (m : gmap string string)
    (node : Node) (ms : MagicString) (err : Error) :
  (Babel.extract accepts m node ms = Threw err <->
   exists r, Babel.req node = Some r
             /\ ((err = PositionError
                  /\ falsy (start r) || falsy (end_ r) = true)
                 \/ (err = TypeError
                     /\ falsy (start r) || falsy (end_ r) = false
                     /\ value r = None)
                 \/ (err = PatcherError
                     /\ falsy (start r) || falsy (end_ r) = false
                     /\ exists v, value r = Some v
                                  /\ truthy (rewrite v m) = true
                                  /\ accepts (start r) (end_ r) ms = false)))
  /\ (Acorn.extract accepts m node ms = Threw err <->
      exists r, Acorn.req node = Some r
                /\ ((err = TypeError /\ value r = None)
                    \/ (err = PatcherError
                        /\ exists v, value r = Some v
                                     /\ truthy (rewrite v m) = true
                                     /\ accepts (start r) (end_ r) ms
                                        = false))).
Proof.
  unfold Babel.extract, Acorn.extract, overwrite. split; split.
  - destruct (Babel.req node) as [r|]; [|discriminate].
    destruct (falsy (start r) || falsy (end_ r)) eqn:Hpos.
    + intros [= <-]. exists r. split; [reflexivity|]. left. now split.
    + destruct (value r) as [v|] eqn:Hv.
      * cbv zeta. destruct (truthy _) eqn:Ht; [|discriminate].
        destruct (accepts _ _ _) eqn:Hacc; [discriminate|].
        intros [= <-]. exists r. split; [reflexivity|]. right. right.
        split; [reflexivity|]. split; [assumption|]. now exists v.
      * intros [= <-]. exists r. split; [reflexivity|]. right. left.
        now split.
  - intros (r & -> & [[-> ->]|[(-> & -> & ->)|(-> & -> & v & -> & Ht & Hacc)]]);
      try reflexivity.
    cbv zeta. now rewrite Ht, Hacc.
  - destruct (Acorn.req node) as [r|]; [|discriminate].
    destruct (value r) as [v|] eqn:Hv.
    + cbv zeta. destruct (truthy _) eqn:Ht; [|discriminate].
      destruct (accepts _ _ _) eqn:Hacc; [discriminate|].
      intros [= <-]. exists r. split; [reflexivity|]. right.
      split; [reflexivity|]. now exists v.
    + intros [= <-]. exists r. split; [reflexivity|]. now left.
  - intros (r & -> & [(-> & ->)|(-> & v & -> & Ht & Hacc)]);
      [reflexivity|].
    cbv zeta. now rewrite Ht, Hacc.
Qed.

(** ** The edit log of a walk *)

(** A walk whose visitor records at most one edit per node, each with the
    property [Q], only appends such edits to the log. *)
Lemma traverse_log (extract : Node -> MagicString -> Result MagicString)
    (Q : RewriteEdit -> Prop) :
  (forall node ms ms',
      extract node ms = Done ms' ->
      ms' = ms
      \/ exists s e text,
           ms' = appendEdit s e text ms
           /\ Q {| edit_start := s; edit_end := e; replacementText := text |}) ->
  forall nodes ms ms',
    traverse extract nodes ms = Done ms' ->
    original ms' = original ms
    /\ exists new,
         edits ms' = (edits ms ++ new)%list
         /\ (List.length new <= List.length nodes)%nat
         /\ Forall Q new.
Proof.
  intros Hstep nodes.
  induction nodes as [|node rest IH]; intros ms ms' Hwalk; cbn in Hwalk.
  - injection Hwalk as <-. split; [reflexivity|].
    exists []. rewrite app_nil_r. repeat split; [cbn; lia | constructor].
  - destruct (extract node ms) as [ms1|] eqn:Hnode; [|discriminate].
    destruct (IH ms1 ms' Hwalk) as (Horig & new & Hedits & Hlen & Hnew).
    destruct (Hstep node ms ms1 Hnode) as [->|(s & e & text & -> & HQ)].
    + split; [assumption|]. exists new. repeat split; [assumption| |assumption].
      cbn [List.length]. lia.
    + cbn [appendEdit original edits] in Horig, Hedits.
      split; [assumption|].
      exists ({| edit_start := s; edit_end := e; replacementText := text |}
                :: new).
      rewrite Hedits, <- app_assoc. repeat split.
      * cbn [List.length]. lia.
      * now constructor.
Qed.

Lemma babel_extract_step (accepts : SpanCheck) (m : gmap string string)
    (node : Node) (ms ms' : MagicString) :
  Babel.extract accepts m node ms = Done ms' ->
  ms' = ms
  \/ exists s e text,
       ms' = appendEdit s e text ms
       /\ (quotedEdit {| edit_start := s; edit_end := e;
                         replacementText := text |}
           /\ positionedEdit {| edit_start := s; edit_end := e;
                                replacementText := text |}).
Proof.
  unfold Babel.extract.
  destruct (Babel.req node) as [r|]; [|intros [= <-]; now left].
  destruct (falsy (start r)) eqn:Hs; [discriminate|].
  destruct (falsy (end_ r)) eqn:He; [discriminate|]. cbn [orb].
  destruct (value r) as [v|]; [|discriminate].
  destruct (rewrite v m) as [[|c p]|]; cbn;
    try (intros [= <-]; now left).
  unfold overwrite. destruct (accepts _ _ _); [|discriminate].
  intros [= <-].
  right. exists (start r), (end_ r), (quoted (String c p)).
  split; [reflexivity|]. split; [|now split].
  exists (String c p). now split.
Qed.

Lemma acorn_extract_step (accepts : SpanCheck) (m : gmap string string)
    (node : Node) (ms ms' : MagicString) :
  Acorn.extract accepts m node ms = Done ms' ->
  ms' = ms
  \/ exists s e text,
       ms' = appendEdit s e text ms
       /\ quotedEdit {| edit_start := s; edit_end := e;
                        replacementText := text |}.
Proof.
  unfold Acorn.extract.
  destruct (Acorn.req node) as [r|]; [|intros [= <-]; now left].
  destruct (value r) as [v|]; [|discriminate].
  destruct (rewrite v m) as [[|c p]|]; cbn;
    try (intros [= <-]; now left).
  unfold overwrite. destruct (accepts _ _ _); [|discriminate].
  intros [= <-].
  right. exists (start r), (end_ r), (quoted (String c p)).
  split; [reflexivity|]. exists (String c p). now split.
Qed.

(** X9: a walk that ends normally, in either realization, keeps the
    original text of the patcher and every edit recorded before it, and
    appends at most one edit per visited node, each of them a non-empty
    path between single quotes. *)
Theorem traverse_appends_quoted_edits (accepts : SpanCheck)
    (m : gmap string string) (nodes : list Node) (ms ms' : MagicString) :
  traverse (Babel.extract accepts m) nodes ms = Done ms'
  \/ traverse (Acorn.extract accepts m) nodes ms = Done ms' ->
  original ms' = original ms
  /\ exists new,
       edits ms' = (edits ms ++ new)%list
       /\ (List.length new <= List.length nodes)%nat
       /\ Forall quotedEdit new.
Proof.
  intros [Hwalk|Hwalk].
  - destruct (traverse_log (Babel.extract accepts m)
                (fun ed => quotedEdit ed /\ positionedEdit ed)
                (babel_extract_step accepts m) nodes ms ms' Hwalk)
      as (Horig & new & Hedits & Hlen & Hnew).
    split; [assumption|]. exists new. repeat split; try assumption.
    eapply Forall_impl; [exact Hnew|]. now intros ed [Hq _].
  - apply (traverse_log (Acorn.extract accepts m) quotedEdit
             (acorn_extract_step accepts m) nodes ms ms' Hwalk).
Qed.

Lemma traverse_appends_quoted_edits_witness :
  let text := "const x = require('./util.js');" in
  let ms' :=
    appendEdit (Some 18) (Some 29) "'./util.mjs'" (MagicString_new text) in
  original ms' = text
  /\ exists new,
       edits ms' = ([] ++ new)%list
       /\ (List.length new <= 1)%nat
       /\ Forall quotedEdit new.
Proof.
  intros text ms'.
  apply (traverse_appends_quoted_edits acceptsSpan {[ ".js" := ".mjs" ]}
           [CallExpression (Some 10) (Some 30)
              (Identifier (Some 10) (Some 17) "require")
              [StringLiteral (Some 18) (Some 29) "./util.js"]]
           (MagicString_new text) ms').
  left. vm_compute. reflexivity.
Defined.

(** X10: in the Babel-backed realization every edit a walk records has a
    defined, non-zero start and end: the patcher is never handed an
    absent offset. *)
Theorem babel_traverse_edits_positioned (accepts : SpanCheck)
    (m : gmap string string) (nodes : list Node) (text : string)
    (ms' : MagicString) :
  traverse (Babel.extract accepts m) nodes (MagicString_new text)
  = Done ms' ->
  Forall positionedEdit (edits ms').
Proof.
  intros Hwalk.
  destruct (traverse_log (Babel.extract accepts m)
              (fun ed => quotedEdit ed /\ positionedEdit ed)
              (babel_extract_step accepts m) nodes _ ms' Hwalk)
    as (_ & new & -> & _ & Hnew).
  cbn. eapply Forall_impl; [exact Hnew|]. now intros ed [_ Hp].
Qed.

Lemma babel_traverse_edits_positioned_witness :
  Forall positionedEdit
    (edits (appendEdit (Some 14) (Some 25) "'./util.mjs'"
              (MagicString_new "import x from './util.js';"))).
Proof.
  apply (babel_traverse_edits_positioned acceptsSpan {[ ".js" := ".mjs" ]}
           [ImportDeclaration (Some 0) (Some 26)
              (StringLiteral (Some 14) (Some 25) "./util.js")]
           "import x from './util.js';").
  vm_compute. reflexivity.
Defined.

(** ** The pass as a whole *)

Lemma bundle_get_Some_In (b : Bundle) (key : string) (ref : nat) :
  bundle_get b key = Some ref -> In (key, ref) b.
Proof.
  induction b as [|[k r] rest IH]; cbn; [discriminate|].
  destruct (String.eqb_spec k key) as [->|Hne].
  - intros [= ->]. now left.
  - intros H. right. now apply IH.
Qed.

Section PassFurther.

Context {Ast : Type}.
Variable filter : option string -> bool.
Variable parse : string -> option Ast.
Variable visited : Ast -> list Node.
Variable toString : MagicString -> string.
Variable extract :
  gmap string string -> Node -> MagicString -> Result MagicString.
Variable options : IRenameExtensionsOptions.

Abbreviation processEntry :=
  (processEntry filter parse visited toString extract options).
Abbreviation rewriteCode :=
  (rewriteCode parse visited toString extract options).
Abbreviation forEntries :=
  (forEntries filter parse visited toString extract options).
Abbreviation generateBundleWith :=
  (generateBundleWith filter parse visited toString extract options).
Abbreviation renamed := (renamed options).

(** What the body leaves in the store at the reference it was given, by
    cases on how it ends. *)
Lemma processEntry_heap_self (key : string) (ref : nat) (st : State)
    (file : File) :
  heap st !! ref = Some file ->
  heap (fst (processEntry key ref st)) !! ref
  = Some (if filter (facadeModuleId file)
          then match facadeModuleId file with
               | Some id => fst (rewriteCode (renamed id file))
               | None => file
               end
          else file).
Proof.
  intros Hfile.
  destruct (filter (facadeModuleId file)) eqn:Hf.
  - destruct (facadeModuleId file) as [id|] eqn:Hid.
    + rewrite (processEntry_pass filter parse visited toString extract
                 options key ref st file id) by congruence.
      apply lookup_lt_Some in Hfile.
      destruct (rewriteCode _) as [f' [e|]]; cbn [fst heap];
        now rewrite list_lookup_insert_eq.
    + unfold processEntry. now rewrite Hfile, Hid, Hf.
  - now rewrite (processEntry_skip filter parse visited toString extract
                   options key ref st file) by assumption.
Qed.

(** *** Source maps *)

Lemma rewriteCode_keeps_map (file : File) :
  sourceMap options = Some false ->
  map (fst (rewriteCode file)) = map file.
Proof.
  intros Hoff. unfold rewriteCode, sourceMaps. rewrite Hoff.
  destruct (code file) as [text|]; [|reflexivity].
  destruct (negb (String.eqb text "")); [|reflexivity].
  destruct (parse text) as [ast|]; [|reflexivity].
  destruct (traverse _ _ _); reflexivity.
Qed.

Lemma processEntry_keeps_map (key : string) (r ref : nat) (st : State) :
  sourceMap options = Some false ->
  map <$> heap (fst (processEntry key r st)) !! ref
  = map <$> heap st !! ref.
Proof.
  intros Hoff. destruct (decide (r = ref)) as [->|Hne];
    [|now rewrite processEntry_heap_other].
  destruct (heap st !! ref) as [f|] eqn:Hfile.
  - rewrite (processEntry_heap_self key ref st f Hfile). cbn. f_equal.
    destruct (filter (facadeModuleId f)); [|reflexivity].
    destruct (facadeModuleId f) as [id|]; [|reflexivity].
    now rewrite rewriteCode_keeps_map.
  - unfold processEntry. rewrite Hfile. cbn. now rewrite Hfile.
Qed.

(** X11: with [sourceMap: false] the pass changes no source map, whether
    it finishes or is left by an exception. *)
Theorem generateBundle_without_sourceMap_keeps_maps (st : State) (ref : nat) :
  sourceMap options = Some false ->
  map <$> heap (fst (generateBundleWith st)) !! ref = map <$> heap st !! ref.
Proof.
  intros Hoff. unfold generateBundleWith.
  generalize (bundle st) at 1. intros files. revert st.
  induction files as [|[k r] rest IH]; intros st; [reflexivity|].
  cbn [forEntries].
  pose proof (processEntry_keeps_map k r ref st Hoff) as Hstep.
  destruct (processEntry k r st) as [st' [e|]]; [assumption|].
  cbn [fst] in Hstep. now rewrite IH.
Qed.

(** *** Files without code *)

Lemma rewriteCode_codeless (file : File) :
  codeless file = true -> rewriteCode file = (file, None).
Proof.
  unfold codeless, rewriteCode.
  destruct (code file) as [text|]; [|reflexivity].
  now intros ->.
Qed.

Lemma processEntry_codeless (key : string) (ref : nat) (st : State) :
  filter None = false ->
  Forall (fun file => codeless file = true) (heap st) ->
  (ref < List.length (heap st))%nat ->
  snd (processEntry key ref st) = None
  /\ Forall (fun file => codeless file = true)
            (heap (fst (processEntry key ref st)))
  /\ List.length (heap (fst (processEntry key ref st)))
     = List.length (heap st)
  /\ (forall r,
        code <$> heap (fst (processEntry key ref st)) !! r
        = code <$> heap st !! r
        /\ map <$> heap (fst (processEntry key ref st)) !! r
           = map <$> heap st !! r).
Proof.
  intros Hnone Hall Href.
  destruct (lookup_lt_is_Some_2 _ _ Href) as [file Hfile].
  assert (codeless file = true) as Hfile_codeless
    by (rewrite Forall_forall in Hall; apply Hall;
        now apply list_elem_of_lookup_2 in Hfile).
  destruct (filter (facadeModuleId file)) eqn:Hf.
  2:{ rewrite (processEntry_skip filter parse visited toString extract
                 options key ref st file) by assumption.
      now repeat split. }
  destruct (facadeModuleId file) as [id|] eqn:Hid; [|congruence].
  rewrite (processEntry_pass filter parse visited toString extract
             options key ref st file id) by congruence.
  rewrite (rewriteCode_codeless (renamed id file)) by exact Hfile_codeless.
  cbn [fst snd heap]. repeat split.
  - now apply Forall_insert.
  - apply length_insert.
  - destruct (decide (ref = r)) as [<-|Hne].
    + now rewrite list_lookup_insert_eq, Hfile.
    + now rewrite list_lookup_insert_ne.
  - destruct (decide (ref = r)) as [<-|Hne].
    + now rewrite list_lookup_insert_eq, Hfile.
    + now rewrite list_lookup_insert_ne.
Qed.

Lemma forEntries_codeless (files : Bundle) :
  filter None = false ->
  forall st,
    Forall (fun file => codeless file = true) (heap st) ->
    (forall k r, In (k, r) files -> (r < List.length (heap st))%nat) ->
    snd (forEntries files st) = None
    /\ (forall r,
          code <$> heap (fst (forEntries files st)) !! r
          = code <$> heap st !! r
          /\ map <$> heap (fst (forEntries files st)) !! r
             = map <$> heap st !! r).
Proof.
  intros Hnone. induction files as [|[k r] rest IH]; intros st Hall Hrefs.
  - now split.
  - cbn [forEntries].
    destruct (processEntry_codeless k r st Hnone Hall)
      as (Hend & Hall' & Hlen & Hsame); [apply (Hrefs k); now left|].
    destruct (processEntry k r st) as [st' [e|]]; [discriminate|].
    cbn [fst] in Hall', Hlen, Hsame.
    destruct (IH st' Hall') as [Hend' Hsame'].
    { intros k' r' Hin. rewrite Hlen. apply (Hrefs k'). now right. }
    split; [assumption|]. intros r0.
    destruct (Hsame r0) as [Hc Hm]. destruct (Hsame' r0) as [Hc' Hm'].
    split; congruence.
Qed.

(** X12: when no file carries code (and the filter rejects an absent
    facade module id, as the filter of the plugin does), the pass neither
    parses nor throws: it finishes, and every file keeps its code and its
    source map. *)
Theorem generateBundle_codeless_completes (st : State) :
  filter None = false ->
  Forall (fun file => codeless file = true) (heap st) ->
  (forall k r, In (k, r) (bundle st) -> (r < List.length (heap st))%nat) ->
  snd (generateBundleWith st) = None
  /\ (forall r,
        code <$> heap (fst (generateBundleWith st)) !! r
        = code <$> heap st !! r
        /\ map <$> heap (fst (generateBundleWith st)) !! r
           = map <$> heap st !! r).
Proof. intros Hnone Hall Hrefs. now apply forEntries_codeless. Qed.

(** *** Keys and file names *)

Lemma processEntry_keys (key : string) (ref : nat) (rest : Bundle)
    (st st' : State) :
  ref ∉ List.map snd rest ->
  keysAreFileNames st ->
  (forall k r, In (k, r) ((key, ref) :: rest) ->
     exists file, heap st !! r = Some file /\ fileName file = k) ->
  processEntry key ref st = (st', None) ->
  keysAreFileNames st'
  /\ (forall k r, In (k, r) rest ->
        exists file, heap st' !! r = Some file /\ fileName file = k).
Proof.
  intros Hfresh Hkeys Hfiles Hstep.
  destruct (Hfiles key ref ltac:(now left)) as (file & Hfile & Hname).
  assert (forall k r, In (k, r) rest -> r <> ref) as Hother.
  { intros k r Hin ->. apply Hfresh, list_elem_of_In.
    change ref with (snd (k, ref)). now apply in_map. }
  destruct (filter (facadeModuleId file)) eqn:Hf.
  2:{ rewrite (processEntry_skip filter parse visited toString extract
                 options key ref st file) in Hstep by assumption.
      injection Hstep as <-. split; [assumption|].
      intros k r Hin. apply Hfiles. now right. }
  destruct (facadeModuleId file) as [id|] eqn:Hid.
  2:{ unfold processEntry in Hstep. rewrite Hfile, Hid, Hf in Hstep.
      discriminate. }
  rewrite (processEntry_pass filter parse visited toString extract
             options key ref st file id) in Hstep by congruence.
  pose proof (rewriteCode_metadata parse visited toString extract
                options (renamed id file)) as (_ & Hname' & _).
  destruct (rewriteCode (renamed id file)) as [file' [e|]];
    [discriminate|].
  cbn [fst] in Hname'. injection Hstep as <-.
  assert (fileName file' = js_or (rewrite key (mappings options)) key)
    as Hnew by (rewrite Hname'; cbn; now rewrite Hname).
  pose proof (lookup_lt_Some _ _ _ Hfile) as Hlt.
  split.
  - intros k r. cbn [bundle heap].
    destruct (decide (js_or (rewrite key (mappings options)) key = k))
      as [<-|Hk].
    + rewrite bundle_get_set_eq. intros [= <-].
      exists file'. now rewrite list_lookup_insert_eq.
    + rewrite bundle_get_set_ne by assumption.
      destruct (decide (key = k)) as [<-|Hkey];
        [now rewrite bundle_get_delete_eq|].
      rewrite bundle_get_delete_ne by assumption. intros Hget.
      destruct (Hkeys k r Hget) as (g & Hg & Hgname).
      exists g. split; [|assumption].
      rewrite list_lookup_insert_ne; [assumption|].
      intros <-. congruence.
  - intros k r Hin. cbn [heap].
    destruct (Hfiles k r ltac:(now right)) as (g & Hg & Hgname).
    exists g. split; [|assumption].
    rewrite list_lookup_insert_ne; [assumption|].
    intros ->. now apply (Hother k r).
Qed.

Lemma forEntries_keys (files : Bundle) :
  NoDup (List.map snd files) ->
  forall st,
    keysAreFileNames st ->
    (forall k r, In (k, r) files ->
       exists file, heap st !! r = Some file /\ fileName file = k) ->
    snd (forEntries files st) = None ->
    keysAreFileNames (fst (forEntries files st)).
Proof.
  induction files as [|[key ref] rest IH]; intros Hnd st Hkeys Hfiles Hend;
    [assumption|].
  cbn [List.map snd] in Hnd. apply NoDup_cons in Hnd as [Hfresh Hnd].
  cbn [forEntries] in Hend |- *.
  destruct (processEntry key ref st) as [st' [e|]] eqn:Hstep;
    [discriminate|].
  destruct (processEntry_keys key ref rest st st' Hfresh Hkeys Hfiles Hstep)
    as [Hkeys' Hfiles'].
  now apply IH.
Qed.

(** X13: when each property name of the collection is the file name of
    its file and no file object is stored twice, a pass that finishes
    leaves the collection in that state: the key and the [fileName] of a
    file are rewritten alike, also when two keys collide. *)
Theorem generateBundle_keys_follow_fileNames (st : State) :
  NoDup (List.map snd (bundle st)) ->
  (forall k r, In (k, r) (bundle st) ->
     exists file, heap st !! r = Some file /\ fileName file = k) ->
  snd (generateBundleWith st) = None ->
  keysAreFileNames (fst (generateBundleWith st)).
Proof.
  intros Hnd Hfiles Hend. apply forEntries_keys; try assumption.
  intros key ref Hget. apply Hfiles. now apply bundle_get_Some_In.
Qed.

(** *** A filter that rejects every file *)

Lemma forEntries_all_filtered (files : Bundle) (st : State) :
  (forall k r, In (k, r) files ->
     exists file,
       heap st !! r = Some file /\ filter (facadeModuleId file) = false) ->
  forEntries files st = (st, None).
Proof.
  intros Hall. induction files as [|[k r] rest IH]; [reflexivity|].
  cbn [forEntries].
  destruct (Hall k r ltac:(now left)) as (file & Hfile & Hf).
  rewrite (processEntry_skip filter parse visited toString extract options
             k r st file Hfile Hf).
  apply IH. intros k' r' Hin. apply (Hall k' r'). now right.
Qed.

(** X14: when the facade module id of every file of the collection fails
    the filter, the pass is a no-op: no field, no key and not even the
    order of the properties changes, and nothing is thrown. *)
Theorem generateBundle_all_filtered (st : State) :
  (forall k r, In (k, r) (bundle st) ->
     exists file,
       heap st !! r = Some file /\ filter (facadeModuleId file) = false) ->
  generateBundleWith st = (st, None).
Proof. apply forEntries_all_filtered. Qed.

(** *** The place of a processed key *)

Lemma bundle_set_absent (key : string) (ref : nat) (b : Bundle) :
  arrayIndex key = None -> bundle_get b key = None ->
  bundle_set key ref b = (b ++ [(key, ref)])%list.
Proof. intros Hname Hget. unfold bundle_set. now rewrite Hget, Hname. Qed.

(** X15: a file that is processed to the end becomes the last property of
    the collection, also when its key is not rewritten, unless the key it
    gets is an array index, which is enumerated before the other names, or
    the key of another file, whose place it then takes. *)
Theorem processEntry_moves_key_last (key : string) (ref : nat) (st : State)
    (file file' : File) (id : string) :
  heap st !! ref = Some file -> filter (facadeModuleId file) = true ->
  facadeModuleId file = Some id ->
  rewriteCode (renamed id file) = (file', None) ->
  let newKey := js_or (rewrite key (mappings options)) key in
  arrayIndex newKey = None ->
  bundle_get (bundle_delete key (bundle st)) newKey = None ->
  bundle (fst (processEntry key ref st))
  = (bundle_delete key (bundle st) ++ [(newKey, ref)])%list.
Proof.
  intros Hfile Hf Hid Hcode newKey Hname Hfree.
  rewrite (processEntry_pass filter parse visited toString extract options
             key ref st file id Hfile Hf Hid), Hcode.
  cbn [fst bundle]. now apply bundle_set_absent.
Qed.

End PassFurther.

Lemma generateBundle_without_sourceMap_keeps_maps_witness :
  map <$>
    heap (fst (Babel.generateBundle acceptsSpan filterAll parseExample id render
                 js_to_mjs_no_map (oneFile "vendor.js" vendorFile))) !! 0%nat
  = Some (Some (HostMap "AAAA")).
Proof.
  apply (generateBundle_without_sourceMap_keeps_maps filterAll parseExample id
           render (Babel.extract acceptsSpan) js_to_mjs_no_map
           (oneFile "vendor.js" vendorFile) 0%nat).
  reflexivity.
Defined.

Lemma generateBundle_codeless_completes_witness :
  snd (Acorn.generateBundle acceptsSpan filterAll parseExample id render
         js_to_mjs codelessBundle) = None
  /\ (forall r,
        code <$>
          heap (fst (Acorn.generateBundle acceptsSpan filterAll parseExample
                       id render
                       js_to_mjs codelessBundle)) !! r
        = code <$> heap codelessBundle !! r
        /\ map <$>
             heap (fst (Acorn.generateBundle acceptsSpan filterAll
                          parseExample id render
                          js_to_mjs codelessBundle)) !! r
           = map <$> heap codelessBundle !! r).
Proof.
  apply (generateBundle_codeless_completes filterAll parseExample id render
           (Acorn.extract acceptsSpan) js_to_mjs codelessBundle).
  - reflexivity.
  - repeat constructor.
  - intros k r [[= <- <-]|[[= <- <-]|[]]]; cbn; lia.
Defined.

Lemma generateBundle_keys_follow_fileNames_witness :
  keysAreFileNames
    (fst (Babel.generateBundle acceptsSpan filterAll parseExample id render
            js_to_mjs indexAndVendor)).
Proof.
  apply (generateBundle_keys_follow_fileNames filterAll parseExample id render
           (Babel.extract acceptsSpan) js_to_mjs indexAndVendor).
  - apply (bool_decide_unpack _). vm_compute. exact I.
  - intros k r [[= <- <-]|[[= <- <-]|[]]]; eexists; split; reflexivity.
  - vm_compute. reflexivity.
Defined.

Lemma generateBundle_all_filtered_witness :
  Babel.generateBundle acceptsSpan (fun _ => false) parseExample id render
      js_to_mjs indexAndVendor = (indexAndVendor, None).
Proof.
  apply (generateBundle_all_filtered (fun _ => false) parseExample id render
           (Babel.extract acceptsSpan) js_to_mjs indexAndVendor).
  intros k r [[= <- <-]|[[= <- <-]|[]]]; eexists; split; reflexivity.
Defined.

Lemma processEntry_moves_key_last_witness :
  bundle (fst (processEntry filterAll parseExample id render
                 (Babel.extract acceptsSpan)
                 {| sourceMap := None; mappings := ∅ |}
                 "a.js" 0%nat collidingBundle))
  = [("a.mjs", 1%nat); ("a.js", 0%nat)].
Proof.
  exact (processEntry_moves_key_last filterAll parseExample id render
           (Babel.extract acceptsSpan) {| sourceMap := None; mappings := ∅ |}
           "a.js" 0%nat collidingBundle plainFile plainFile "/src/a.js"
           eq_refl eq_refl eq_refl eq_refl eq_refl eq_refl).
Defined.

(** A key that is rewritten to an array index is enumerated first: under
    a mapping that drops [.js], the file stored as [1.js] ends up before
    the file stored as [a.mjs]. *)
Example processEntry_index_key_goes_first :
  let drop_js := {| sourceMap := None; mappings := {[ ".js" := "" ]} |} in
  let st :=
    {| heap := [vendorFile; plainFile];
       bundle := [("a.mjs", 0%nat); ("1.js", 1%nat)] |} in
  js_or (rewrite "1.js" (mappings drop_js)) "1.js" = "1"
  /\ arrayIndex "1" = Some 1%N
  /\ bundle (fst (processEntry filterAll parseExample id render
                    (Babel.extract acceptsSpan) drop_js "1.js" 1%nat st))
     = [("1", 1%nat); ("a.mjs", 0%nat)].
Proof. vm_compute. repeat split; reflexivity. Qed.

(** X16: a path without any dot has no extension: unless the mapping has
    the empty string as a key, [rewrite] finds no match and the fallback of
    the callers keeps the path. *)
Theorem rewrite_without_dot (p : string) (m : gmap string string) :
  Forall (fun code => code <> "."%char) (list_ascii_of_string p) ->
  m !! "" = None ->
  rewrite p m = None /\ js_or (rewrite p m) p = p.
Proof.
  intros Hdot Hm.
  assert (rewrite p m = None) as ->
    by (apply rewrite_None; now rewrite (extname_no_dot p Hdot)).
  now split.
Qed.

Lemma rewrite_without_dot_witness :
  rewrite "bin/README" {[ ".js" := ".mjs" ]} = None
  /\ js_or (rewrite "bin/README" {[ ".js" := ".mjs" ]}) "bin/README"
     = "bin/README".
Proof.
  apply rewrite_without_dot; [|vm_compute; reflexivity].
  repeat constructor; discriminate.
Defined.

(** ** The two realizations side by side *)

Lemma plainSpecifier_req (node : Node) :
  plainSpecifier node -> Babel.req node = Acorn.req node.
Proof.
  intros [Hcall Hlit].
  assert (forall r, Babel.req node = Some r \/ Acorn.req node = Some r ->
                    Babel.type r = "StringLiteral") as Hstr
    by (intros r Hr; now destruct (Hlit r Hr)).
  clear Hlit.
  destruct node as [| | | | | |s e c args|s e src|s e [src|]|s e src];
    try reflexivity.
  - specialize (Hcall eq_refl). cbn in Hcall.
    destruct c; try discriminate. injection Hcall as ->.
    destruct args as [|a rest]; [reflexivity|].
    destruct a; try reflexivity.
    specialize (Hstr _ (or_intror eq_refl)). discriminate.
  - destruct src; try reflexivity;
      specialize (Hstr _ (or_introl eq_refl)); discriminate.
  - destruct src; try reflexivity;
      specialize (Hstr _ (or_intror eq_refl)); discriminate.
  - destruct src; try reflexivity;
      specialize (Hstr _ (or_intror eq_refl)); discriminate.
Qed.

Lemma plainSpecifier_extract (accepts : SpanCheck) (m : gmap string string)
    (node : Node) (ms : MagicString) :
  plainSpecifier node ->
  Babel.extract accepts m node ms = Acorn.extract accepts m node ms.
Proof.
  intros Hplain. pose proof (plainSpecifier_req node Hplain) as Hreq.
  destruct Hplain as [_ Hlit].
  unfold Babel.extract, Acorn.extract. rewrite <- Hreq.
  destruct (Babel.req node) as [r|]; [|reflexivity].
  destruct (Hlit r ltac:(now left)) as (_ & -> & ->). reflexivity.
Qed.

Lemma plainSpecifier_traverse (accepts : SpanCheck)
    (m : gmap string string) (nodes : list Node) :
  Forall plainSpecifier nodes ->
  forall ms,
    traverse (Babel.extract accepts m) nodes ms
    = traverse (Acorn.extract accepts m) nodes ms.
Proof.
  induction 1 as [|node rest Hnode Hrest IH]; intros ms; [reflexivity|].
  cbn [traverse]. rewrite (plainSpecifier_extract accepts m node ms Hnode).
  destruct (Acorn.extract accepts m node ms); [apply IH | reflexivity].
Qed.

Section Realizations.

Context {AstB AstA : Type}.
Variable accepts : SpanCheck.
Variable filter : option string -> bool.
Variable parseB : string -> option AstB.
Variable visitedB : AstB -> list Node.
Variable parseA : string -> option AstA.
Variable visitedA : AstA -> list Node.
Variable toString : MagicString -> string.
Variable options : IRenameExtensionsOptions.

Abbreviation agree := (agreeOn parseB visitedB parseA visitedA).

Lemma rewriteCode_realizations (file : File) :
  (forall text, code file = Some text -> text <> "" -> agree text) ->
  rewriteCode parseB visitedB toString (Babel.extract accepts) options file
  = rewriteCode parseA visitedA toString (Acorn.extract accepts) options file.
Proof.
  intros Hagree. unfold rewriteCode.
  destruct (code file) as [text|]; [|reflexivity].
  destruct (String.eqb_spec text "") as [->|Htext]; [reflexivity|].
  specialize (Hagree text eq_refl Htext). unfold agreeOn in Hagree.
  cbn [negb].
  destruct (parseB text) as [b|], (parseA text) as [a|];
    try contradiction; [|reflexivity].
  destruct Hagree as [<- Hplain].
  now rewrite (plainSpecifier_traverse accepts _ _ Hplain).
Qed.

Lemma processEntry_realizations (key : string) (ref : nat) (st : State) :
  (forall file text,
      heap st !! ref = Some file -> filter (facadeModuleId file) = true ->
      code file = Some text -> text <> "" -> agree text) ->
  processEntry filter parseB visitedB toString (Babel.extract accepts)
    options key ref st
  = processEntry filter parseA visitedA toString (Acorn.extract accepts)
      options key ref st.
Proof.
  intros Hagree. unfold processEntry.
  destruct (heap st !! ref) as [file|]; [|reflexivity].
  destruct (filter (facadeModuleId file)) eqn:Hf; [|reflexivity].
  cbn [negb].
  destruct (facadeModuleId file) as [id|] eqn:Hid; [|reflexivity].
  cbv zeta. rewrite rewriteCode_realizations; [reflexivity|].
  intros text Hcode Htext.
  apply (Hagree file text);
    [reflexivity | now rewrite Hid | exact Hcode | assumption].
Qed.

Lemma forEntries_realizations (files : Bundle) :
  NoDup (List.map snd files) ->
  forall st,
    (forall k r file text,
        In (k, r) files -> heap st !! r = Some file ->
        filter (facadeModuleId file) = true ->
        code file = Some text -> text <> "" -> agree text) ->
    forEntries filter parseB visitedB toString (Babel.extract accepts)
      options files st
    = forEntries filter parseA visitedA toString (Acorn.extract accepts)
        options files st.
Proof.
  induction files as [|[k r] rest IH]; intros Hnd st Hagree; [reflexivity|].
  cbn [List.map snd] in Hnd. apply NoDup_cons in Hnd as [Hfresh Hnd].
  cbn [forEntries]. rewrite processEntry_realizations.
  2:{ intros file text. apply (Hagree k r). now left. }
  pose proof (fun ref =>
                processEntry_heap_other filter parseA visitedA toString
                  (Acorn.extract accepts) options k r ref st) as Hother.
  destruct (processEntry _ _ _ _ _ _ k r st) as [st' [e|]];
    [reflexivity|].
  cbn [fst] in Hother. apply IH; [assumption|].
  intros k' r' file text Hin Hfile.
  apply (Hagree k' r'); [now right|].
  rewrite <- Hother; [assumption|].
  intros ->. apply Hfresh, list_elem_of_In.
  change r' with (snd (k', r')). now apply in_map.
Qed.

(** X18: the two realizations of the pass do the same to a collection and
    end alike when no file object is stored twice and, on the code of
    every file that passes the filter, their front ends agree: both
    parsers reject the code, or both accept it and the two walkers hand
    the visitors the same nodes in the same order, each a plain specifier
    (an import or export declaration or a [require] call whose specifier,
    if any, is a string literal with non-zero offsets). *)
Theorem generateBundle_realizations_agree (st : State) :
  NoDup (List.map snd (bundle st)) ->
  (forall k r file text,
      In (k, r) (bundle st) -> heap st !! r = Some file ->
      filter (facadeModuleId file) = true ->
      code file = Some text -> text <> "" -> agree text) ->
  Babel.generateBundle accepts filter parseB visitedB toString options st
  = Acorn.generateBundle accepts filter parseA visitedA toString options st.
Proof.
  intros Hnd Hagree.
  unfold Babel.generateBundle, Acorn.generateBundle, generateBundleWith.
  now apply forEntries_realizations.
Qed.

End Realizations.

Lemma generateBundle_realizations_agree_witness :
  Babel.generateBundle acceptsSpan filterAll parsePlain id render js_to_mjs
    indexAndVendor
  = Acorn.generateBundle acceptsSpan filterAll parseProgram body render
      js_to_mjs indexAndVendor.
Proof.
  apply generateBundle_realizations_agree.
  - apply (bool_decide_unpack _). vm_compute. exact I.
  - intros k r file text Hin Hfile _ Hcode _.
    assert (text = "import x from './util.js';") as ->.
    { destruct Hin as [[= <- <-]|[[= <- <-]|[]]];
        injection Hfile as <-; injection Hcode as <-; reflexivity. }
    unfold agreeOn.
    change (parsePlain "import x from './util.js';")
      with (Some [ImportDeclaration (Some 0) (Some 26)
                    (StringLiteral (Some 14) (Some 25) "./util.js")]).
    change (parseProgram "import x from './util.js';")
      with (Some (program
                    [ImportDeclaration (Some 0) (Some 26)
                       (StringLiteral (Some 14) (Some 25) "./util.js")])).
    split; [reflexivity|].
    constructor; [|constructor].
    split; [discriminate|].
    intros r0 [Hr|Hr]; injection Hr as <-; repeat split.
Defined.

(** ** The metadata of a processed file *)

Section Metadata.

Context {Ast : Type}.
Variable filter : option string -> bool.
Variable parse : string -> option Ast.
Variable visited : Ast -> list Node.
Variable toString : MagicString -> string.
Variable extract :
  gmap string string -> Node -> MagicString -> Result MagicString.
Variable options : IRenameExtensionsOptions.

Abbreviation processEntry :=
  (processEntry filter parse visited toString extract options).
Abbreviation rewriteCode :=
  (rewriteCode parse visited toString extract options).
Abbreviation forEntries :=
  (forEntries filter parse visited toString extract options).
Abbreviation generateBundleWith :=
  (generateBundleWith filter parse visited toString extract options).
Abbreviation renamed := (renamed options).
Abbreviation renamedFrom := (renamedFrom filter options).

Lemma forEntries_heap_other (files : Bundle) (ref : nat) :
  ref ∉ List.map snd files ->
  forall st, heap (fst (forEntries files st)) !! ref = heap st !! ref.
Proof.
  induction files as [|[k r] rest IH]; intros Hfresh st; [reflexivity|].
  cbn [List.map snd] in Hfresh. apply not_elem_of_cons in Hfresh as [Hne Hfresh].
  cbn [forEntries].
  pose proof (processEntry_heap_other filter parse visited toString extract
                options k r ref st ltac:(congruence)) as Hstep.
  destruct (processEntry k r st) as [st' [e|]]; [assumption|].
  cbn [fst] in Hstep. now rewrite IH.
Qed.

Lemma processEntry_renamedFrom (key : string) (ref : nat) (st st' : State)
    (file : File) :
  heap st !! ref = Some file -> processEntry key ref st = (st', None) ->
  exists file', heap st' !! ref = Some file' /\ renamedFrom file file'.
Proof.
  intros Hfile Hstep. unfold renamedFrom.
  destruct (filter (facadeModuleId file)) eqn:Hf.
  - destruct (facadeModuleId file) as [id|] eqn:Hid.
    + rewrite (processEntry_pass filter parse visited toString extract
                 options key ref st file id) in Hstep by congruence.
      pose proof (rewriteCode_metadata parse visited toString extract
                    options (renamed id file)) as (Hid' & Hname & Himp).
      destruct (rewriteCode (renamed id file)) as [file' [e|]];
        [discriminate|].
      injection Hstep as <-. cbn [fst heap] in *.
      exists file'. split.
      * apply list_lookup_insert_eq. now apply lookup_lt_Some in Hfile.
      * split; [exact Himp|]. split; [|exact Hname].
        exists id. split; [reflexivity | exact Hid'].
    + unfold processEntry in Hstep. rewrite Hfile, Hid, Hf in Hstep.
      discriminate.
  - rewrite (processEntry_skip filter parse visited toString extract options
               key ref st file) in Hstep by assumption.
    injection Hstep as <-. exists file. now repeat split.
Qed.

Lemma forEntries_renamedFrom (files : Bundle) (key : string) (ref : nat)
    (file : File) :
  NoDup (List.map snd files) -> In (key, ref) files ->
  forall st,
    heap st !! ref = Some file -> snd (forEntries files st) = None ->
    exists file',
      heap (fst (forEntries files st)) !! ref = Some file'
      /\ renamedFrom file file'.
Proof.
  induction files as [|[k r] rest IH]; intros Hnd Hin st Hfile Hend;
    [destruct Hin|].
  cbn [List.map snd] in Hnd. apply NoDup_cons in Hnd as [Hfresh Hnd].
  cbn [forEntries] in Hend |- *.
  destruct (processEntry k r st) as [st' [e|]] eqn:Hstep; [discriminate|].
  destruct (decide (r = ref)) as [->|Hne].
  - destruct (processEntry_renamedFrom k ref st st' file Hfile Hstep)
      as (file' & Hfile' & Hren).
    exists file'. split; [|assumption].
    now rewrite forEntries_heap_other.
  - destruct Hin as [[= -> ->]|Hin]; [congruence|].
    apply IH; try assumption.
    pose proof (processEntry_heap_other filter parse visited toString extract
                  options k r ref st Hne) as Hother.
    rewrite Hstep in Hother. cbn [fst] in Hother. congruence.
Qed.

(** X17: when no file object is stored twice, a pass that finishes has
    rewritten the [fileName] and the [facadeModuleId] of every file whose
    facade module id passes the filter (each to [rewrite(x) || x]), has
    left every other file as it was, and has changed no imports list. *)
Theorem generateBundle_renames_participating_files (st : State)
    (key : string) (ref : nat) (file : File) :
  NoDup (List.map snd (bundle st)) -> In (key, ref) (bundle st) ->
  heap st !! ref = Some file -> snd (generateBundleWith st) = None ->
  exists file',
    heap (fst (generateBundleWith st)) !! ref = Some file'
    /\ renamedFrom file file'.
Proof.
  intros Hnd Hin. exact (forEntries_renamedFrom (bundle st) key ref file Hnd Hin st).
Qed.

End Metadata.

Lemma generateBundle_renames_participating_files_witness :
  exists file',
    heap (fst (Babel.generateBundle acceptsSpan filterNoVendor parseExample id
                 render js_to_mjs indexAndVendor)) !! 0%nat = Some file'
    /\ renamedFrom filterNoVendor js_to_mjs indexFile file'.
Proof.
  apply (generateBundle_renames_participating_files filterNoVendor parseExample
           id render (Babel.extract acceptsSpan) js_to_mjs indexAndVendor
           "index.js" 0%nat indexFile).
  - apply (bool_decide_unpack _). vm_compute. exact I.
  - left. reflexivity.
  - reflexivity.
  - vm_compute. reflexivity.
Defined.
